(** * PaddleOCR JNI bridge: a shallow embedding of [paddle_ocr_jni.cpp]

    The file embeds the four JNI entry points of
    [android/src/main/cpp/paddle_ocr_jni.cpp] -- [nativeInit],
    [nativeDetectText], [nativeRecognizeText] and [nativeDispose] -- and
    proves facts about the tensor encoding, the detection decoding, the
    recognition result and the handling of handles and exceptions.

    Conventions of the embedding:
    - a C++ [int] is a [Z] in the range [INT_MIN .. INT_MAX]; signed
      arithmetic that leaves the range is undefined behaviour, conversions
      from wider or unsigned integer types wrap around;
    - a C++ [float] is an IEEE-754 binary32 value, [spec_float] with
      precision 24 and maximal exponent 128;
    - a C++ expression evaluates to an [outcome]: a value, a thrown
      exception, or undefined behaviour;
    - the JNI functions run in a state monad over a [World] that holds
      the C++ heap (handles, sessions), the model files and a trace of
      the calls into the bitmap and inference libraries. *)

From Stdlib Require Import ZArith Lia List Bool String.
From Stdlib Require Import Floats.SpecFloat.
From stdpp Require Import base tactics option list gmap strings.

Local Open Scope Z_scope.

(** ** Outcomes of C++ evaluation *)

(** The exceptions the code can meet; all of them derive from
    [std::exception], which is what the [catch] clauses name. *)
Inductive cpp_exception : Type :=
  | std_length_error
  | Ort_Exception (msg : string).

(** The kinds of undefined behaviour the code can run into. *)
Inductive undefined : Type :=
  | signed_overflow
  | out_of_bounds
  | invalid_pointer.

Inductive outcome (A : Type) : Type :=
  | Ret (a : A)
  | Throw (e : cpp_exception)
  | Undef (u : undefined).

Arguments Ret {A} a.
Arguments Throw {A} e.
Arguments Undef {A} u.

Definition obind {A B} (m : outcome A) (k : A -> outcome B) : outcome B :=
  match m with
  | Ret a => k a
  | Throw e => Throw e
  | Undef u => Undef u
  end.

Declare Scope outcome_scope.
Delimit Scope outcome_scope with outcome.
Notation "'do' x <- m ; k" := (obind m (fun x => k))
  (at level 10, x name, m at level 100, k at level 200) : outcome_scope.
Local Open Scope outcome_scope.

(** ** Machine integers *)

Definition INT_MIN : Z := - 2 ^ 31.
Definition INT_MAX : Z := 2 ^ 31 - 1.

Definition in_int (z : Z) : bool := (INT_MIN <=? z) && (z <=? INT_MAX).

(** Conversion of a wider or unsigned integer to [int]: modulo 2^32. *)
Definition to_int (z : Z) : Z := (z + 2 ^ 31) mod 2 ^ 32 - 2 ^ 31.

(** Conversion to [uint8_t]. *)
Definition to_uint8 (z : Z) : Z := z mod 2 ^ 8.

Definition int_mul (a b : Z) : outcome Z :=
  if in_int (a * b) then Ret (a * b) else Undef signed_overflow.

Definition int_add (a b : Z) : outcome Z :=
  if in_int (a + b) then Ret (a + b) else Undef signed_overflow.

(** ** Single-precision floats *)

Definition f32 : Type := spec_float.

Definition f32_div : f32 -> f32 -> f32 := SFdiv 24 128.

(** Conversion of an integer to [float], rounding to nearest even. *)
Definition f32_of_int (z : Z) : f32 := binary_normalize 24 128 z 0 false.

(** [a > b] on floats; false as soon as one side is a NaN. *)
Definition f32_gt (a b : f32) : bool := SFltb b a.
Definition f32_le (a b : f32) : bool := SFleb a b.

Definition f32_zero : f32 := S754_zero false.
Definition f32_one : f32 := S754_finite false 8388608 (-23).
(** The literals [255.0f] and [0.5f]. *)
Definition f32_255 : f32 := S754_finite false 16711680 (-16).
Definition f32_half : f32 := S754_finite false 8388608 (-24).

(** ** Raw buffers and vectors *)

(** [p[i]] on a raw pointer to a buffer of [length buf] elements. *)
Definition ptr_read {A} (buf : list A) (i : Z) : outcome A :=
  if i <? 0 then Undef out_of_bounds
  else match buf !! Z.to_nat i with
       | Some v => Ret v
       | None => Undef out_of_bounds
       end.

(** [std::vector<float> v(n)] with [n] an [int]: a negative [n] converts
    to a [size_t] above [max_size()] and the constructor throws. *)
Definition vector_alloc (n : Z) : outcome (list f32) :=
  if n <? 0 then Throw std_length_error
  else Ret (replicate (Z.to_nat n) f32_zero).

(** [v[i] = x] on a [std::vector]. *)
Definition vector_set {A} (v : list A) (i : Z) (x : A) : outcome (list A) :=
  if (0 <=? i) && (i <? Z.of_nat (length v))
  then Ret (<[Z.to_nat i := x]> v)
  else Undef out_of_bounds.

(** [v[i]] on a [std::vector]. *)
Definition vector_get {A} (v : list A) (i : Z) : outcome A :=
  if i <? 0 then Undef out_of_bounds
  else match v !! Z.to_nat i with
       | Some x => Ret x
       | None => Undef out_of_bounds
       end.

(** ** Counted loops

    [for (int i = lo; i < hi; i++) body], threading the loop state. *)
Fixpoint for_loop {S} (n : nat) (i : Z) (body : Z -> S -> outcome S) (s : S)
  : outcome S :=
  match n with
  | O => Ret s
  | S n' => do s' <- body i s; for_loop n' (i + 1) body s'
  end.

Definition for_int {S} (lo hi : Z) (body : Z -> S -> outcome S) (s : S)
  : outcome S :=
  for_loop (Z.to_nat (hi - lo)) lo body s.

(** ** The tensor encoder *)

(** The three channel bytes of a packed pixel word. *)
Definition pixel_r (pixel : Z) : Z := to_uint8 (Z.land (Z.shiftr pixel 16) 255).
Definition pixel_g (pixel : Z) : Z := to_uint8 (Z.land (Z.shiftr pixel 8) 255).
Definition pixel_b (pixel : Z) : Z := to_uint8 (Z.land pixel 255).

(** [c / 255.0f] for a [uint8_t] [c]. *)
Definition normalize (c : Z) : f32 := f32_div (f32_of_int c) f32_255.

Module Det.
(** Lines 75-84: the body of the inner loop of [nativeDetectText]. *)
Definition encode_pixel (width height : Z) (rgbaPixels : list Z)
    (y x : Z) (inputTensor : list f32) : outcome (list f32) :=
  do yw <- int_mul y width;
  do i <- int_add yw x;
  do pixel <- ptr_read rgbaPixels i;
  let r := pixel_r pixel in
  let g := pixel_g pixel in
  let b := pixel_b pixel in
  do yw' <- int_mul y width;
  do idx <- int_add yw' x;
  do h0 <- int_mul 0 height;
  do p0 <- int_mul h0 width;
  do k0 <- int_add p0 idx;
  do t0 <- vector_set inputTensor k0 (normalize r);
  do h1 <- int_mul 1 height;
  do p1 <- int_mul h1 width;
  do k1 <- int_add p1 idx;
  do t1 <- vector_set t0 k1 (normalize g);
  do h2 <- int_mul 2 height;
  do p2 <- int_mul h2 width;
  do k2 <- int_add p2 idx;
  vector_set t1 k2 (normalize b).

(** Lines 70-86: allocation of the tensor and the two loops. *)
Definition encode (width height : Z) (rgbaPixels : list Z)
  : outcome (list f32) :=
  do h3 <- int_mul 3 height;
  do n <- int_mul h3 width;
  do inputTensor <- vector_alloc n;
  for_int 0 height (fun y t =>
    for_int 0 width (fun x t' =>
      encode_pixel width height rgbaPixels y x t') t) inputTensor.
End Det.


Module Rec.
(** Lines 154-162: the body of the inner loop of [nativeRecognizeText]. *)
Definition encode_pixel (width height : Z) (rgbaPixels : list Z)
    (y x : Z) (inputTensor : list f32) : outcome (list f32) :=
  do yw <- int_mul y width;
  do i <- int_add yw x;
  do pixel <- ptr_read rgbaPixels i;
  let r := pixel_r pixel in
  let g := pixel_g pixel in
  let b := pixel_b pixel in
  do yw' <- int_mul y width;
  do idx <- int_add yw' x;
  do h0 <- int_mul 0 height;
  do p0 <- int_mul h0 width;
  do k0 <- int_add p0 idx;
  do t0 <- vector_set inputTensor k0 (normalize r);
  do h1 <- int_mul 1 height;
  do p1 <- int_mul h1 width;
  do k1 <- int_add p1 idx;
  do t1 <- vector_set t0 k1 (normalize g);
  do h2 <- int_mul 2 height;
  do p2 <- int_mul h2 width;
  do k2 <- int_add p2 idx;
  vector_set t1 k2 (normalize b).

(** Lines 149-164. *)
Definition encode (width height : Z) (rgbaPixels : list Z)
  : outcome (list f32) :=
  do h3 <- int_mul 3 height;
  do n <- int_mul h3 width;
  do inputTensor <- vector_alloc n;
  for_int 0 height (fun y t =>
    for_int 0 width (fun x t' =>
      encode_pixel width height rgbaPixels y x t') t) inputTensor.
End Rec.

(** ** The detection decoder (lines 101-117) *)

(** Lines 108-111: one row of the output, copied value by value. *)
Definition decode_row (outputData : list f32) (featDim i : Z)
  : outcome (list f32) :=
  for_int 0 featDim (fun j detection =>
    do p <- int_mul i featDim;
    do k <- int_add p j;
    do v <- ptr_read outputData k;
    Ret (detection ++ [v])) [].

(** Line 113: [detection.size() > 8 && detection[8] > 0.5f]. *)
Definition above_threshold (detection : list f32) : outcome bool :=
  if 8 <? Z.of_nat (length detection)
  then do c <- vector_get detection 8; Ret (f32_gt c f32_half)
  else Ret false.

Definition decode (outputData : list f32) (outputShape : list Z)
  : outcome (list (list f32)) :=
  if 3 <=? Z.of_nat (length outputShape) then
    do n <- vector_get outputShape 1;
    do f <- vector_get outputShape 2;
    let numDets := to_int n in
    let featDim := to_int f in
    for_int 0 numDets (fun i dets =>
      do detection <- decode_row outputData featDim i;
      do keep <- above_threshold detection;
      Ret (if keep : bool then dets ++ [detection] else dets)) []
  else Ret [].

(** ** The world of the JNI functions *)

(** An [Ort::Value] holding a float tensor: its data and its shape. *)
Record Tensor : Type := { t_data : list f32; t_dims : list Z }.

(** An [Ort::Session], as far as the code uses it: the name of input 0 and
    [Run] on one input, each of which may throw. [Run] stands for the call
    together with the evaluation of its arguments [GetOutputNames] and
    [GetOutputCount]; the outputs are float tensors. The model behind the
    session is a function of the input tensor. *)
Record Session : Type := {
  GetInputName : outcome string;
  Run : string -> Tensor -> outcome (list Tensor)
}.

(** [struct OCRHandle]: three session pointers, [0] for [nullptr]. *)
Record OCRHandle : Type := {
  detSession : Z;
  clsSession : Z;
  recSession : Z
}.

(** An Android bitmap as the code sees it once [AndroidBitmap_getInfo] and
    [AndroidBitmap_lockPixels] have succeeded (the code does not look at
    their results): [info.width], [info.height] (both [uint32_t]) and the
    locked pixel buffer read as 32-bit words. The buffer ends where the
    list ends. *)
Record Bitmap : Type := {
  bm_width : Z;
  bm_height : Z;
  bm_pixels : list Z
}.

(** Calls that leave the C++ code. Logging and the marshalling of the
    path strings are left out. *)
Inductive Event : Type :=
  | EvNewSession (path : string) (addr : Z)
  | EvGetInfo
  | EvLockPixels
  | EvUnlockPixels
  | EvRun (session : Z) (input : Tensor)
  | EvDelete (addr : Z).

Record World : Type := {
  model_files : string -> option Session;
  handles : gmap Z OCRHandle;
  sessions : gmap Z Session;
  next_addr : positive;
  trace : list Event
}.

Definition M (A : Type) : Type := World -> outcome A * World.

Definition ret {A} (a : A) : M A := fun w => (Ret a, w).

Definition lift {A} (o : outcome A) : M A := fun w => (o, w).

Definition bind {A B} (m : M A) (k : A -> M B) : M B :=
  fun w =>
    match m w with
    | (Ret a, w') => k a w'
    | (Throw e, w') => (Throw e, w')
    | (Undef u, w') => (Undef u, w')
    end.

(** [try { body } catch (const std::exception& e) { handler }]: the state
    reached when the exception was thrown is the one the handler starts
    from. Undefined behaviour is not an exception and is not caught. *)
Definition try_catch {A} (body : M A) (handler : cpp_exception -> M A) : M A :=
  fun w =>
    match body w with
    | (Throw e, w') => handler e w'
    | r => r
    end.

Declare Scope world_scope.
Delimit Scope world_scope with world.
Notation "'run' x <- m ; k" := (bind m (fun x => k))
  (at level 10, x name, m at level 100, k at level 200) : world_scope.
Local Open Scope world_scope.

Definition emit (e : Event) : M unit :=
  fun w =>
    (Ret tt, {| model_files := model_files w; handles := handles w;
                sessions := sessions w; next_addr := next_addr w;
                trace := trace w ++ [e] |}).

(** ** The C++ heap *)

(** [new OCRHandle()]: value-initialised, so the three pointers are null. *)
Definition new_OCRHandle : M Z :=
  fun w =>
    let a := Z.pos (next_addr w) in
    (Ret a,
     {| model_files := model_files w;
        handles := <[a := {| detSession := 0; clsSession := 0;
                             recSession := 0 |}]> (handles w);
        sessions := sessions w;
        next_addr := Pos.succ (next_addr w);
        trace := trace w |}).

(** [new Ort::Session(env, path, options)]: the constructor throws when
    the model at [path] cannot be loaded. *)
Definition new_Session (path : string) : M Z :=
  fun w =>
    match model_files w path with
    | Some s =>
        let a := Z.pos (next_addr w) in
        (Ret a,
         {| model_files := model_files w;
            handles := handles w;
            sessions := <[a := s]> (sessions w);
            next_addr := Pos.succ (next_addr w);
            trace := trace w ++ [EvNewSession path a] |})
    | None => (Throw (Ort_Exception path), w)
    end.

(** [*h] for an [OCRHandle* h]. *)
Definition load_handle (h : Z) : M OCRHandle :=
  fun w =>
    match handles w !! h with
    | Some o => (Ret o, w)
    | None => (Undef invalid_pointer, w)
    end.

(** [*h = o] for an [OCRHandle* h]. *)
Definition store_handle (h : Z) (o : OCRHandle) : M unit :=
  fun w =>
    match handles w !! h with
    | Some _ =>
        (Ret tt,
         {| model_files := model_files w;
            handles := <[h := o]> (handles w);
            sessions := sessions w;
            next_addr := next_addr w;
            trace := trace w |})
    | None => (Undef invalid_pointer, w)
    end.

(** [*s] for an [Ort::Session* s]. *)
Definition load_session (s : Z) : M Session :=
  fun w =>
    match sessions w !! s with
    | Some o => (Ret o, w)
    | None => (Undef invalid_pointer, w)
    end.

(** [delete s] for an [Ort::Session* s]; deleting [nullptr] does nothing. *)
Definition delete_session (s : Z) : M unit :=
  if s =? 0 then ret tt
  else fun w =>
    match sessions w !! s with
    | Some _ =>
        (Ret tt,
         {| model_files := model_files w;
            handles := handles w;
            sessions := delete s (sessions w);
            next_addr := next_addr w;
            trace := trace w ++ [EvDelete s] |})
    | None => (Undef invalid_pointer, w)
    end.

(** [delete h] for an [OCRHandle* h]. *)
Definition delete_handle (h : Z) : M unit :=
  fun w =>
    match handles w !! h with
    | Some _ =>
        (Ret tt,
         {| model_files := model_files w;
            handles := delete h (handles w);
            sessions := sessions w;
            next_addr := next_addr w;
            trace := trace w ++ [EvDelete h] |})
    | None => (Undef invalid_pointer, w)
    end.

(** [s->Run(...)] on one input: the name of input 0 is asked for first. *)
Definition session_run (s : Z) (input : Tensor) : M (list Tensor) :=
  run o <- load_session s;
  run inputName <- lift (GetInputName o);
  run _ <- emit (EvRun s input);
  lift (Run o inputName input).

(** ** The JNI entry points *)

(** Lines 24-53. *)
Definition nativeInit (detPath clsPath recPath : string) : M Z :=
  try_catch
    (run handle <- new_OCRHandle;
     run d <- new_Session detPath;
     run h0 <- load_handle handle;
     run _ <- store_handle handle
       {| detSession := d; clsSession := clsSession h0;
          recSession := recSession h0 |};
     run c <- new_Session clsPath;
     run h1 <- load_handle handle;
     run _ <- store_handle handle
       {| detSession := detSession h1; clsSession := c;
          recSession := recSession h1 |};
     run r <- new_Session recPath;
     run h2 <- load_handle handle;
     run _ <- store_handle handle
       {| detSession := detSession h2; clsSession := clsSession h2;
          recSession := r |};
     ret handle)
    (fun _ => ret 0).

(** Lines 61-127: the [try] block of [nativeDetectText]. *)
Definition detect_body (handle : Z) (bitmap : Bitmap)
  : M (option (list (list f32))) :=
  run _ <- emit EvGetInfo;
  run _ <- emit EvLockPixels;
  let width := to_int (bm_width bitmap) in
  let height := to_int (bm_height bitmap) in
  run inputTensor <- lift (Det.encode width height (bm_pixels bitmap));
  run _ <- emit EvUnlockPixels;
  let input := {| t_data := inputTensor; t_dims := [1; 3; height; width] |} in
  run h <- load_handle handle;
  run output <- session_run (detSession h) input;
  run out0 <- lift (vector_get output 0);
  run dets <- lift (decode (t_data out0) (t_dims out0));
  ret (Some dets).

(** Lines 55-132. The result [None] is the [nullptr] array. *)
Definition nativeDetectText (handle : Z) (bitmap : Bitmap)
  : M (option (list (list f32))) :=
  if handle =? 0 then ret None
  else try_catch (detect_body handle bitmap) (fun _ => ret None).

(** Lines 140-177: the [try] block of [nativeRecognizeText]. *)
Definition recognize_body (handle : Z) (bitmap : Bitmap)
  : M (option string) :=
  run _ <- emit EvGetInfo;
  run _ <- emit EvLockPixels;
  let width := to_int (bm_width bitmap) in
  let height := to_int (bm_height bitmap) in
  run inputTensor <- lift (Rec.encode width height (bm_pixels bitmap));
  run _ <- emit EvUnlockPixels;
  let input := {| t_data := inputTensor; t_dims := [1; 3; height; width] |} in
  run h <- load_handle handle;
  run output <- session_run (recSession h) input;
  let result := "123456"%string in
  ret (Some result).

(** Lines 134-182. The result [None] is the [nullptr] string. *)
Definition nativeRecognizeText (handle : Z) (bitmap : Bitmap)
  : M (option string) :=
  if handle =? 0 then ret None
  else try_catch (recognize_body handle bitmap) (fun _ => ret None).

(** Lines 184-194. *)
Definition nativeDispose (handle : Z) : M unit :=
  if handle =? 0 then ret tt
  else
    run h <- load_handle handle;
    run _ <- delete_session (detSession h);
    run _ <- delete_session (clsSession h);
    run _ <- delete_session (recSession h);
    delete_handle handle.

(** ** What the specification says, as definitions to compare with *)

(** Bits [8k .. 8k+7] of a pixel word. *)
Definition byte_of (k : Z) (pixel : Z) : Z := (pixel / 2 ^ (8 * k)) mod 256.

(** [0 <= v <= 1] on floats. *)
Definition in_unit (v : f32) : bool := f32_le f32_zero v && f32_le v f32_one.

(** Dimensions for which the [int] arithmetic of the size computation
    [3 * height * width] stays in range. *)
Definition valid_dims (W H : Z) : Prop :=
  0 <= W <= INT_MAX /\ 0 <= H /\ 3 * H <= INT_MAX /\ 3 * H * W <= INT_MAX.

(** Row [i] of a row-major [N x F] tensor. *)
Definition tensor_row (F : Z) (data : list f32) (i : Z) : list f32 :=
  take (Z.to_nat F) (drop (Z.to_nat (i * F)) data).

(** The rows of a row-major [N x F] tensor, in order. *)
Definition tensor_rows (N F : Z) (data : list f32) : list (list f32) :=
  map (tensor_row F data) (seqZ 0 N).

(** A row of [F] values is retained when [F > 8] and the value at
    position 8 is greater than 0.5. *)
Definition retained (F : Z) (row : list f32) : bool :=
  (8 <? F) &&
  match row !! 8%nat with
  | Some c => f32_gt c f32_half
  | None => false
  end.

(** Shapes [(1, N, F)] whose dimensions and element count fit the [int]
    variables the decoder keeps them in. *)
Definition valid_shape (N F : Z) : Prop :=
  0 <= N <= INT_MAX /\ 0 <= F <= INT_MAX /\ N * F <= INT_MAX.

(** The [float] nearest to the fraction [n / d], for [n] and [d] that are
    floats themselves. *)
Definition f32_ratio (n d : Z) : f32 := f32_div (f32_of_int n) (f32_of_int d).

(** The confidence values [0.9f], [0.4f] and [0.5001f]. *)
Definition conf_090 : f32 := S754_finite false 15099494 (-24).
Definition conf_040 : f32 := S754_finite false 13421773 (-25).
Definition conf_05001 : f32 := S754_finite false 8390286 (-24).

(** The three values the pixel at row-major offset [idx] contributes to
    the planes of a [3 x H x W] tensor. *)
Definition written (W H : Z) (t : list f32) (idx : Z) (p : Z) : Prop :=
  t !! Z.to_nat idx = Some (normalize (pixel_r p)) /\
  t !! Z.to_nat (H * W + idx) = Some (normalize (pixel_g p)) /\
  t !! Z.to_nat (2 * H * W + idx) = Some (normalize (pixel_b p)).

(** The state of the tensor when the first [n] pixels are encoded: the
    invariant of the two loops of the encoder. *)
Definition encoded (W H : Z) (px : list Z) (n : Z) (t : list f32) : Prop :=
  Z.of_nat (length t) = 3 * H * W /\
  Forall (fun v => in_unit v = true) t /\
  forall idx p, 0 <= idx < n -> px !! Z.to_nat idx = Some p ->
    written W H t idx p.

(** The greedy sequence decode that section 4.5 of the specification
    describes, written from its words ([spec_argmax], [spec_timesteps],
    [spec_collapse], [spec_greedy_decode]). The source has no counterpart:
    line 176 of [nativeRecognizeText] is a placeholder.

    [argmax_from] walks one timestep and keeps the index of the highest
    value seen, the first one among equals. *)
Fixpoint argmax_from (best : nat) (bestv : f32) (i : nat) (probs : list f32)
  : nat :=
  match probs with
  | [] => best
  | v :: rest =>
      if f32_gt v bestv then argmax_from i v (Datatypes.S i) rest
      else argmax_from best bestv (Datatypes.S i) rest
  end.

Definition spec_argmax (probs : list f32) : nat :=
  match probs with
  | [] => O
  | v :: rest => argmax_from O v 1%nat rest
  end.

(** The [T] timesteps of a row-major [T x V] output. *)
Definition spec_timesteps (T V : nat) (data : list f32) : list (list f32) :=
  map (fun t => take V (drop (t * V) data)) (seq 0 T).

(** Consecutive repeated symbols collapse into one. *)
Fixpoint spec_collapse (idxs : list nat) : list nat :=
  match idxs with
  | [] => []
  | a :: rest =>
      match rest with
      | [] => [a]
      | b :: _ => if Nat.eqb a b then spec_collapse rest
                  else a :: spec_collapse rest
      end
  end.

(** Collapse the repeats, drop the blank, look the rest up and concatenate. *)
Definition spec_greedy_decode (blank : nat) (vocabulary : list string)
    (idxs : list nat) : string :=
  String.concat EmptyString
    (map (fun i => default EmptyString (vocabulary !! i))
       (List.filter (fun i => negb (Nat.eqb i blank)) (spec_collapse idxs))).

(** A handle is valid in a world when it is not null and points to a live
    [OCRHandle] whose three sessions are live. *)
Definition valid_handle (w : World) (handle : Z) : Prop :=
  handle <> 0 /\
  exists h, handles w !! handle = Some h /\
    is_Some (sessions w !! detSession h) /\
    is_Some (sessions w !! clsSession h) /\
    is_Some (sessions w !! recSession h).

(** Two worlds with the same heap and model files; only the trace may
    differ. *)
Definition same_heap (w w' : World) : Prop :=
  handles w' = handles w /\ sessions w' = sessions w /\
  model_files w' = model_files w /\ next_addr w' = next_addr w.

(** A computation that leaves the heap as it found it, however it ends. *)
Definition heap_stable {A} (m : M A) : Prop :=
  forall w, same_heap w (snd (m w)).

(** A computation whose outcome depends on the heap only, not on the
    trace of earlier calls. *)
Definition heap_determined {A} (m : M A) : Prop :=
  forall w1 w2, same_heap w1 w2 -> fst (m w1) = fst (m w2).

(** ** Sample inputs *)

(** A 1 x 1 bitmap whose pixel buffer holds no complete 32-bit word, as
    the buffer of a 1 x 1 bitmap in a 16-bit pixel format does. *)
Definition short_bitmap : Bitmap :=
  {| bm_width := 1; bm_height := 1; bm_pixels := [] |}.

(** A 1 x 1 bitmap with a dark pixel. *)
Definition other_bitmap : Bitmap :=
  {| bm_width := 1; bm_height := 1; bm_pixels := [0x00123456] |}.

(** A 2 x 1 bitmap with an orange and a blue pixel. *)
Definition sample_bitmap : Bitmap :=
  {| bm_width := 2; bm_height := 1;
     bm_pixels := [0x00FF8000; 0xFF0000FF] |}.

(** Three detection rows of nine values: eight geometry values and a
    confidence of 0.9, 0.4 and 0.5001. *)
Definition geometry : list f32 :=
  map f32_of_int [10; 20; 110; 20; 110; 60; 10; 60].
Definition row_090 : list f32 := geometry ++ [conf_090].
Definition row_040 : list f32 := geometry ++ [conf_040].
Definition row_05001 : list f32 := geometry ++ [conf_05001].
Definition row_half : list f32 := geometry ++ [f32_half].

(** A vocabulary with the blank at index 0 and the ten digits after it. *)
Definition digits_vocabulary : list string :=
  [EmptyString; "0"; "1"; "2"; "3"; "4"; "5"; "6"; "7"; "8"; "9"]%string.

(** A timestep of 11 probabilities with all the mass on index [i]. *)
Definition one_hot (i : nat) : list f32 :=
  map (fun k => if Nat.eqb k i then f32_one else f32_zero) (seq 0 11).

(** A recognition output of shape [(1, 7, 11)] whose timesteps select the
    indices 4, 4, 0, 7, 7, 7, 1. *)
Definition ctc_output : Tensor :=
  {| t_data := concat (map one_hot [4; 4; 0; 7; 7; 7; 1]%nat);
     t_dims := [1; 7; 11] |}.

(** A detection output of shape [(1, 3, 9)]. *)
Definition det_output : Tensor :=
  {| t_data := row_090 ++ row_040 ++ row_05001; t_dims := [1; 3; 9] |}.

(** Sessions that answer every input with a fixed output, and one whose
    [Run] throws. *)
Definition det_model : Session :=
  {| GetInputName := Ret "x"%string; Run := fun _ _ => Ret [det_output] |}.
Definition cls_model : Session :=
  {| GetInputName := Ret "x"%string; Run := fun _ _ => Ret [] |}.
Definition rec_model : Session :=
  {| GetInputName := Ret "x"%string; Run := fun _ _ => Ret [ctc_output] |}.
Definition failing_model : Session :=
  {| GetInputName := Ret "x"%string;
     Run := fun _ _ => Throw (Ort_Exception "run failed") |}.

(** Model files: the detection and recognition models load, the
    classification model does not. *)
Definition files_without_cls (path : string) : option Session :=
  if String.eqb path "det.onnx" then Some det_model
  else if String.eqb path "rec.onnx" then Some rec_model
  else None.

(** Model files: all three models load. *)
Definition files_complete (path : string) : option Session :=
  if String.eqb path "det.onnx" then Some det_model
  else if String.eqb path "cls.onnx" then Some cls_model
  else if String.eqb path "rec.onnx" then Some rec_model
  else None.

(** The world before any call. *)
Definition fresh_world (files : string -> option Session) : World :=
  {| model_files := files; handles := ∅; sessions := ∅;
     next_addr := 1%positive; trace := [] |}.

(** The world after a successful [nativeInit]: the handle at address 1,
    its sessions at 2, 3 and 4. *)
Definition ready_world : World :=
  snd (nativeInit "det.onnx" "cls.onnx" "rec.onnx" (fresh_world files_complete)).

(** A world whose handle at address 1 owns sessions that throw in [Run]. *)
Definition failing_world : World :=
  {| model_files := files_complete;
     handles := {[ 1 := {| detSession := 2; clsSession := 3;
                           recSession := 4 |} ]};
     sessions := {[ 2 := failing_model; 3 := cls_model; 4 := failing_model ]};
     next_addr := 5%positive;
     trace := [] |}.

(** ** Further notions used to state what the entry points do *)

(** Two pixel words with the same red, green and blue bytes: they agree
    on bits 0-23 and may differ in bits 24-31. *)
Definition same_rgb (p p' : Z) : Prop := p mod 2 ^ 24 = p' mod 2 ^ 24.

(** A detection as [nativeDetectText] hands it out: more than eight
    values, the one at position 8 greater than 0.5. *)
Definition good_detection (detection : list f32) : Prop :=
  (8 < length detection)%nat /\
  exists c, detection !! 8%nat = Some c /\ f32_gt c f32_half = true.

(** The allocator's promise: no object lives at [next_addr] or above, so
    a [new] never returns an address that is in use. *)
Definition wf_world (w : World) : Prop :=
  forall a, Z.pos (next_addr w) <= a ->
    handles w !! a = None /\ sessions w !! a = None.

(** [handle] points to the live [OCRHandle] [h], whose three session
    pointers are non-null, pairwise distinct and live. *)
Definition owns_sessions (w : World) (handle : Z) (h : OCRHandle) : Prop :=
  handle <> 0 /\ handles w !! handle = Some h /\
  detSession h <> 0 /\ clsSession h <> 0 /\ recSession h <> 0 /\
  detSession h <> clsSession h /\ detSession h <> recSession h /\
  clsSession h <> recSession h /\
  is_Some (sessions w !! detSession h) /\
  is_Some (sessions w !! clsSession h) /\
  is_Some (sessions w !! recSession h).

(** A world whose handle at address 1 owns sessions that return no
    output at all. *)
Definition no_output_world : World :=
  {| model_files := files_complete;
     handles := {[ 1 := {| detSession := 2; clsSession := 3;
                           recSession := 4 |} ]};
     sessions := {[ 2 := cls_model; 3 := cls_model; 4 := cls_model ]};
     next_addr := 5%positive;
     trace := [] |}.

(** A 1-row bitmap whose reported width has the top bit set: as an
    [int] the width is -1. *)
Definition wide_bitmap : Bitmap :=
  {| bm_width := 4294967295; bm_height := 1; bm_pixels := [] |}.

(** A world whose detection session answers with a two-dimensional
    output. *)
Definition flat_output : Tensor :=
  {| t_data := row_090; t_dims := [1; 9] |}.
Definition flat_model : Session :=
  {| GetInputName := Ret "x"%string; Run := fun _ _ => Ret [flat_output] |}.
Definition flat_world : World :=
  {| model_files := files_complete;
     handles := {[ 1 := {| detSession := 2; clsSession := 3;
                           recSession := 4 |} ]};
     sessions := {[ 2 := flat_model; 3 := cls_model; 4 := rec_model ]};
     next_addr := 5%positive;
     trace := [] |}.

(** ** Basic facts *)

Lemma in_int_true z : INT_MIN <= z <= INT_MAX -> in_int z = true.
Proof.
  intros [Hlo Hhi]. unfold in_int.
  apply andb_true_intro; split; apply Z.leb_le; assumption.
Qed.

Lemma int_mul_ok a b :
  INT_MIN <= a * b <= INT_MAX -> int_mul a b = Ret (a * b).
Proof. intros H. unfold int_mul. rewrite in_int_true; auto. Qed.

Lemma int_add_ok a b :
  INT_MIN <= a + b <= INT_MAX -> int_add a b = Ret (a + b).
Proof. intros H. unfold int_add. rewrite in_int_true; auto. Qed.

Lemma to_int_id z : INT_MIN <= z <= INT_MAX -> to_int z = z.
Proof.
  unfold to_int, INT_MIN, INT_MAX. intros H.
  rewrite Z.mod_small; lia.
Qed.

Lemma ptr_read_ok {A} (buf : list A) i v :
  0 <= i -> buf !! Z.to_nat i = Some v -> ptr_read buf i = Ret v.
Proof.
  intros Hi Hv. unfold ptr_read.
  destruct (Z.ltb_spec i 0); [lia|]. rewrite Hv. reflexivity.
Qed.

Lemma ptr_read_past {A} (buf : list A) i :
  Z.of_nat (length buf) <= i -> ptr_read buf i = Undef out_of_bounds.
Proof.
  intros Hi. unfold ptr_read.
  destruct (Z.ltb_spec i 0); [reflexivity|].
  rewrite (proj2 (lookup_ge_None buf (Z.to_nat i))); [reflexivity | lia].
Qed.

Lemma vector_set_ok {A} (v : list A) i x :
  0 <= i < Z.of_nat (length v) ->
  vector_set v i x = Ret (<[Z.to_nat i := x]> v).
Proof.
  intros [Hlo Hhi]. unfold vector_set.
  rewrite (proj2 (Z.leb_le 0 i) Hlo), (proj2 (Z.ltb_lt _ _) Hhi).
  reflexivity.
Qed.

(** ** The model on small inputs *)

Example encode_2x1 :
  Det.encode 2 1 [0x00FF8000; 0xFF0000FF] =
  Ret [normalize 255; normalize 0; normalize 128; normalize 0;
       normalize 0; normalize 255].
Proof. vm_compute. reflexivity. Qed.

Example f32_255_literal : f32_of_int 255 = f32_255.
Proof. reflexivity. Qed.

Example f32_one_literal : f32_of_int 1 = f32_one /\ normalize 255 = f32_one.
Proof. split; reflexivity. Qed.

Example f32_literals_valid :
  forallb (valid_binary 24 128)
    [f32_zero; f32_one; f32_255; f32_half; conf_090; conf_040; conf_05001]
  = true.
Proof. reflexivity. Qed.

Example normalize_values :
  normalize 0 = f32_zero /\
  normalize 128 = S754_finite false 8421505 (-24) /\
  normalize 255 = f32_one.
Proof. repeat split; reflexivity. Qed.

Example f32_half_literal : f32_div (f32_of_int 1) (f32_of_int 2) = f32_half.
Proof. reflexivity. Qed.

(** ** Loops *)

Section Loops.
Context {S : Type}.
Variable body : Z -> S -> outcome S.
Variable Inv : Z -> S -> Prop.

(** A loop whose every iteration returns and re-establishes the
    invariant returns, with the invariant at the upper bound. *)
Lemma for_loop_ok n : forall lo s,
  (forall i s0, lo <= i < lo + Z.of_nat n -> Inv i s0 ->
     exists s1, body i s0 = Ret s1 /\ Inv (i + 1) s1) ->
  Inv lo s ->
  exists s', for_loop n lo body s = Ret s' /\ Inv (lo + Z.of_nat n) s'.
Proof.
  induction n as [|n IH]; intros lo s Hstep Hinv.
  - exists s. simpl. rewrite Z.add_0_r. auto.
  - destruct (Hstep lo s) as (s1 & Hb & Hinv1); [lia | assumption |].
    destruct (IH (lo + 1) s1) as (s' & Hl & Hinv').
    + intros i s0 Hi. apply Hstep. lia.
    + assumption.
    + exists s'. simpl. rewrite Hb. simpl. split; [assumption|].
      replace (lo + Z.of_nat (Datatypes.S n)) with (lo + 1 + Z.of_nat n) by lia.
      assumption.
Qed.

Lemma for_int_ok lo hi s :
  lo <= hi ->
  (forall i s0, lo <= i < hi -> Inv i s0 ->
     exists s1, body i s0 = Ret s1 /\ Inv (i + 1) s1) ->
  Inv lo s ->
  exists s', for_int lo hi body s = Ret s' /\ Inv hi s'.
Proof.
  intros Hle Hstep Hinv. unfold for_int.
  destruct (for_loop_ok (Z.to_nat (hi - lo)) lo s) as (s' & Hl & Hi).
  - intros i s0 Hr. apply Hstep. lia.
  - assumption.
  - exists s'. split; [assumption|].
    replace (lo + Z.of_nat (Z.to_nat (hi - lo))) with hi in Hi by lia.
    assumption.
Qed.

(** A loop whose iterations return up to [k] and whose iteration [k]
    runs into undefined behaviour runs into it as a whole. *)
Lemma for_loop_undef n u : forall lo k s,
  lo <= k < lo + Z.of_nat n ->
  (forall i s0, lo <= i < k -> Inv i s0 ->
     exists s1, body i s0 = Ret s1 /\ Inv (i + 1) s1) ->
  (forall s0, Inv k s0 -> body k s0 = Undef u) ->
  Inv lo s ->
  for_loop n lo body s = Undef u.
Proof.
  induction n as [|n IH]; intros lo k s Hk Hstep Hfail Hinv.
  - lia.
  - simpl. destruct (Z.eq_dec lo k) as [->|Hne].
    + rewrite Hfail by assumption. reflexivity.
    + destruct (Hstep lo s) as (s1 & Hb & Hinv1); [lia | assumption |].
      rewrite Hb. simpl. apply (IH (lo + 1) k).
      * lia.
      * intros i s0 Hi. apply Hstep. lia.
      * assumption.
      * assumption.
Qed.

Lemma for_int_undef lo hi k u s :
  lo <= k < hi ->
  (forall i s0, lo <= i < k -> Inv i s0 ->
     exists s1, body i s0 = Ret s1 /\ Inv (i + 1) s1) ->
  (forall s0, Inv k s0 -> body k s0 = Undef u) ->
  Inv lo s ->
  for_int lo hi body s = Undef u.
Proof.
  intros Hk Hstep Hfail Hinv. unfold for_int.
  apply (for_loop_undef _ u lo k); try assumption. lia.
Qed.
End Loops.

Lemma for_int_empty {S} lo hi (body : Z -> S -> outcome S) s :
  hi <= lo -> for_int lo hi body s = Ret s.
Proof.
  intros H. unfold for_int.
  replace (Z.to_nat (hi - lo)) with O by lia. reflexivity.
Qed.

(** ** The channel bytes and their normalisation *)

Lemma byte_mask z : Z.land z 255 = z mod 2 ^ 8.
Proof. change 255 with (Z.ones 8). apply Z.land_ones. lia. Qed.

Lemma pixel_r_byte p : pixel_r p = byte_of 2 p.
Proof.
  unfold pixel_r, byte_of, to_uint8.
  rewrite byte_mask, Z.shiftr_div_pow2 by lia.
  rewrite Z.mod_mod by lia. reflexivity.
Qed.

Lemma pixel_g_byte p : pixel_g p = byte_of 1 p.
Proof.
  unfold pixel_g, byte_of, to_uint8.
  rewrite byte_mask, Z.shiftr_div_pow2 by lia.
  rewrite Z.mod_mod by lia. reflexivity.
Qed.

Lemma pixel_b_byte p : pixel_b p = byte_of 0 p.
Proof.
  unfold pixel_b, byte_of, to_uint8.
  rewrite byte_mask, Z.mod_mod by lia.
  change (2 ^ (8 * 0)) with 1. rewrite Z.div_1_r. reflexivity.
Qed.

Lemma byte_of_range k p : 0 <= byte_of k p < 256.
Proof. unfold byte_of. apply Z.mod_pos_bound. lia. Qed.

Lemma normalize_table :
  forallb (fun c => in_unit (normalize c)) (seqZ 0 256) = true.
Proof. vm_compute. reflexivity. Qed.

Lemma normalize_valid_table :
  forallb (fun c => valid_binary 24 128 (normalize c)) (seqZ 0 256) = true.
Proof. vm_compute. reflexivity. Qed.

(** The quotient of a byte by 255 is a well-formed binary32 value. *)
Lemma normalize_valid c :
  0 <= c < 256 -> valid_binary 24 128 (normalize c) = true.
Proof.
  intros Hc.
  apply (proj1 (forallb_forall _ _) normalize_valid_table).
  apply list_elem_of_In, elem_of_seqZ. lia.
Qed.

Lemma normalize_in_unit c : 0 <= c < 256 -> in_unit (normalize c) = true.
Proof.
  intros Hc.
  apply (proj1 (forallb_forall _ _) normalize_table).
  apply list_elem_of_In, elem_of_seqZ. lia.
Qed.

(** ** The encoder on dimensions in range *)

Section Encoder.
Variables (W H : Z) (px : list Z).
Hypothesis HW0 : 0 <= W.
Hypothesis HH0 : 0 <= H.
Hypothesis Hsize : 3 * H * W <= INT_MAX.

Lemma encode_pixel_ret y x p t :
  0 <= y < H -> 0 <= x < W ->
  Z.of_nat (length t) = 3 * H * W ->
  px !! Z.to_nat (y * W + x) = Some p ->
  Det.encode_pixel W H px y x t =
  Ret (<[Z.to_nat (2 * H * W + (y * W + x)) := normalize (pixel_b p)]>
       (<[Z.to_nat (H * W + (y * W + x)) := normalize (pixel_g p)]>
        (<[Z.to_nat (y * W + x) := normalize (pixel_r p)]> t))).
Proof.
  intros Hy Hx Hlen Hp.
  assert (Hidx : 0 <= y * W + x < H * W) by nia.
  unfold Det.encode_pixel, INT_MAX, INT_MIN in *.
  rewrite (int_mul_ok y W) by (unfold INT_MIN, INT_MAX; nia). cbn [obind].
  rewrite (int_add_ok (y * W) x) by (unfold INT_MIN, INT_MAX; nia). cbn [obind].
  rewrite (ptr_read_ok px _ p) by (assumption || lia). cbn [obind].
  rewrite (int_mul_ok 0 H) by (unfold INT_MIN, INT_MAX; lia). cbn [obind].
  rewrite (int_mul_ok _ W) by (unfold INT_MIN, INT_MAX; lia). cbn [obind].
  rewrite (int_add_ok _ (y * W + x)) by (unfold INT_MIN, INT_MAX; nia).
  cbn [obind]. rewrite vector_set_ok by lia. cbn [obind].
  rewrite (int_mul_ok 1 H) by (unfold INT_MIN, INT_MAX; nia). cbn [obind].
  rewrite (int_mul_ok _ W) by (unfold INT_MIN, INT_MAX; nia). cbn [obind].
  rewrite (int_add_ok _ (y * W + x)) by (unfold INT_MIN, INT_MAX; nia).
  cbn [obind]. rewrite vector_set_ok by (rewrite length_insert; nia). cbn [obind].
  rewrite (int_mul_ok 2 H) by (unfold INT_MIN, INT_MAX; nia). cbn [obind].
  rewrite (int_mul_ok _ W) by (unfold INT_MIN, INT_MAX; nia). cbn [obind].
  rewrite (int_add_ok _ (y * W + x)) by (unfold INT_MIN, INT_MAX; nia).
  cbn [obind]. rewrite vector_set_ok by (rewrite !length_insert; nia).
  repeat f_equal; lia.
Qed.

Lemma encode_pixel_past y x t :
  0 <= y < H -> 0 <= x < W ->
  Z.of_nat (length px) <= y * W + x ->
  Det.encode_pixel W H px y x t = Undef out_of_bounds.
Proof.
  intros Hy Hx Hlen.
  unfold Det.encode_pixel.
  rewrite (int_mul_ok y W) by (unfold INT_MIN, INT_MAX in *; nia).
  cbn [obind].
  rewrite (int_add_ok (y * W) x) by (unfold INT_MIN, INT_MAX in *; nia).
  cbn [obind]. rewrite ptr_read_past by assumption. reflexivity.
Qed.

Lemma encoded_step n p t :
  0 <= n < H * W ->
  px !! Z.to_nat n = Some p ->
  encoded W H px n t ->
  encoded W H px (n + 1)
    (<[Z.to_nat (2 * H * W + n) := normalize (pixel_b p)]>
     (<[Z.to_nat (H * W + n) := normalize (pixel_g p)]>
      (<[Z.to_nat n := normalize (pixel_r p)]> t))).
Proof.
  intros Hn Hp (Hlen & Hunit & Hwr).
  split; [|split].
  - rewrite !length_insert. assumption.
  - repeat apply Forall_insert; try assumption;
      apply normalize_in_unit;
      rewrite ?pixel_r_byte, ?pixel_g_byte, ?pixel_b_byte;
      apply byte_of_range.
  - intros idx q Hidx Hq. unfold written.
    destruct (Z.eq_dec idx n) as [->|Hne].
    + assert (q = p) by congruence. subst q.
      rewrite list_lookup_insert_ne by lia.
      rewrite list_lookup_insert_ne by lia.
      rewrite list_lookup_insert_eq by lia.
      rewrite list_lookup_insert_ne by lia.
      rewrite list_lookup_insert_eq by (rewrite length_insert; lia).
      rewrite list_lookup_insert_eq by (rewrite !length_insert; lia).
      auto.
    + destruct (Hwr idx q) as (Hr & Hg & Hb); [lia | assumption |].
      rewrite !list_lookup_insert_ne by lia. auto.
Qed.

Lemma encode_row_ret y t :
  0 <= y < H ->
  H * W <= Z.of_nat (length px) ->
  encoded W H px (y * W) t ->
  exists t',
    for_int 0 W (fun x t0 => Det.encode_pixel W H px y x t0) t = Ret t' /\
    encoded W H px ((y + 1) * W) t'.
Proof.
  intros Hy Hlen Henc.
  destruct (for_int_ok (fun x t0 => Det.encode_pixel W H px y x t0)
              (fun x t0 => encoded W H px (y * W + x) t0) 0 W t)
    as (t' & Hrun & Hinv).
  - assumption.
  - intros x t0 Hx Ht0.
    assert (Hidx : 0 <= y * W + x < H * W) by nia.
    destruct (lookup_lt_is_Some_2 px (Z.to_nat (y * W + x))) as [p Hp];
      [lia|].
    exists (<[Z.to_nat (2 * H * W + (y * W + x)) := normalize (pixel_b p)]>
            (<[Z.to_nat (H * W + (y * W + x)) := normalize (pixel_g p)]>
             (<[Z.to_nat (y * W + x) := normalize (pixel_r p)]> t0))).
    split.
    + apply encode_pixel_ret; try assumption. apply Ht0.
    + replace (y * W + (x + 1)) with (y * W + x + 1) by lia.
      apply encoded_step; assumption.
  - rewrite Z.add_0_r. assumption.
  - exists t'. split; [assumption|].
    replace ((y + 1) * W) with (y * W + W) by lia. assumption.
Qed.

Hypothesis Hh3 : 3 * H <= INT_MAX.

Lemma encode_alloc :
  Det.encode W H px =
  for_int 0 H (fun y t =>
    for_int 0 W (fun x t' => Det.encode_pixel W H px y x t') t)
    (replicate (Z.to_nat (3 * H * W)) f32_zero).
Proof.
  unfold Det.encode.
  rewrite (int_mul_ok 3 H) by (unfold INT_MIN, INT_MAX in *; lia).
  cbn [obind].
  rewrite (int_mul_ok _ W) by (unfold INT_MIN, INT_MAX in *; nia).
  cbn [obind]. unfold vector_alloc.
  destruct (Z.ltb_spec (3 * H * W) 0); [nia|]. reflexivity.
Qed.

Lemma encoded_init :
  encoded W H px 0 (replicate (Z.to_nat (3 * H * W)) f32_zero).
Proof.
  split; [|split].
  - rewrite length_replicate. nia.
  - apply Forall_replicate. reflexivity.
  - intros idx p Hidx. lia.
Qed.

(** With enough pixel words the encoder returns, all pixels encoded. *)
Lemma encode_ret :
  H * W <= Z.of_nat (length px) ->
  exists t, Det.encode W H px = Ret t /\ encoded W H px (H * W) t.
Proof.
  intros Hlen. rewrite encode_alloc.
  apply (for_int_ok _ (fun y t => encoded W H px (y * W) t)).
  - assumption.
  - intros y t Hy Ht. apply encode_row_ret; assumption.
  - apply encoded_init.
Qed.

(** With too few pixel words the encoder reads past the buffer. *)
Lemma encode_undef :
  Z.of_nat (length px) < H * W ->
  Det.encode W H px = Undef out_of_bounds.
Proof.
  intros Hlen. rewrite encode_alloc.
  assert (HWpos : 0 < W) by nia.
  set (L := Z.of_nat (length px)) in *.
  assert (HL : 0 <= L) by (subst L; lia).
  pose proof (Z.div_mod L W ltac:(lia)) as Hdm.
  pose proof (Z.mod_pos_bound L W HWpos) as Hmod.
  assert (Hq : 0 <= L / W < H) by (split; [apply Z.div_pos; lia | nia]).
  apply (for_int_undef _ (fun y t => Z.of_nat (length t) = 3 * H * W)
           0 H (L / W)).
  - assumption.
  - intros y t Hy Ht.
    destruct (for_int_ok (fun x t0 => Det.encode_pixel W H px y x t0)
                (fun x t0 => Z.of_nat (length t0) = 3 * H * W) 0 W t)
      as (t' & Hrun & Hinv); try assumption.
    + intros x t0 Hx Ht0.
      destruct (lookup_lt_is_Some_2 px (Z.to_nat (y * W + x))) as [p Hp];
        [fold L; nia|].
      eexists. split.
      * apply (encode_pixel_ret y x p); try assumption; lia.
      * rewrite !length_insert. assumption.
    + exists t'. auto.
  - intros t Ht.
    apply (for_int_undef _ (fun x t0 => Z.of_nat (length t0) = 3 * H * W)
             0 W (L mod W)).
    + lia.
    + intros x t0 Hx Ht0.
      destruct (lookup_lt_is_Some_2 px (Z.to_nat (L / W * W + x)))
        as [p Hp]; [fold L; nia|].
      eexists. split.
      * apply (encode_pixel_ret (L / W) x p); try assumption; lia.
      * rewrite !length_insert. assumption.
    + intros t0 Ht0. apply encode_pixel_past; try fold L; nia.
    + assumption.
  - rewrite length_replicate. nia.
Qed.
End Encoder.

Lemma valid_dims_int W H :
  valid_dims W H -> to_int W = W /\ to_int H = H.
Proof.
  unfold valid_dims, INT_MAX. intros (HW & HH & H3 & _).
  split; apply to_int_id; unfold INT_MIN, INT_MAX; lia.
Qed.

(** C1. For a bitmap whose dimensions are in range and whose pixel buffer
    has at least [W * H] words, the encoder of [nativeDetectText] returns
    a buffer of exactly [3 * H * W] floats; for the pixel at row [y] and
    column [x], plane 0 holds at offset [y * W + x] the byte in bits 16-23
    of the pixel word divided by 255.0, plane 1 the byte in bits 8-15 and
    plane 2 the byte in bits 0-7; every element is between 0 and 1. *)
Theorem tensor_encoder_planar (bitmap : Bitmap) :
  valid_dims (bm_width bitmap) (bm_height bitmap) ->
  bm_width bitmap * bm_height bitmap <= Z.of_nat (length (bm_pixels bitmap)) ->
  exists t,
    Det.encode (to_int (bm_width bitmap)) (to_int (bm_height bitmap))
      (bm_pixels bitmap) = Ret t /\
    Z.of_nat (length t) = 3 * bm_height bitmap * bm_width bitmap /\
    (forall y x, 0 <= y < bm_height bitmap -> 0 <= x < bm_width bitmap ->
       exists pixel,
         bm_pixels bitmap !! Z.to_nat (y * bm_width bitmap + x) = Some pixel /\
         t !! Z.to_nat (0 * (bm_height bitmap * bm_width bitmap)
                        + (y * bm_width bitmap + x))
           = Some (f32_div (f32_of_int (byte_of 2 pixel)) f32_255) /\
         t !! Z.to_nat (1 * (bm_height bitmap * bm_width bitmap)
                        + (y * bm_width bitmap + x))
           = Some (f32_div (f32_of_int (byte_of 1 pixel)) f32_255) /\
         t !! Z.to_nat (2 * (bm_height bitmap * bm_width bitmap)
                        + (y * bm_width bitmap + x))
           = Some (f32_div (f32_of_int (byte_of 0 pixel)) f32_255)) /\
    Forall (fun v => f32_le f32_zero v = true /\ f32_le v f32_one = true) t.
Proof.
  destruct bitmap as [W H px]. cbn [bm_width bm_height bm_pixels].
  intros Hdims Hlen.
  destruct (valid_dims_int W H Hdims) as [-> ->].
  destruct Hdims as ((HW0 & HWmax) & HH0 & H3 & Hsize).
  destruct (encode_ret W H px HW0 HH0 Hsize H3) as (t & Hrun & Hl & Hunit & Hwr);
    [lia|].
  exists t. split; [assumption|]. split; [assumption|]. split.
  - intros y x Hy Hx.
    assert (Hidx : 0 <= y * W + x < H * W) by nia.
    destruct (lookup_lt_is_Some_2 px (Z.to_nat (y * W + x))) as [p Hp]; [lia|].
    exists p. split; [assumption|].
    destruct (Hwr (y * W + x) p Hidx Hp) as (Hr & Hg & Hb).
    rewrite pixel_r_byte in Hr. rewrite pixel_g_byte in Hg.
    rewrite pixel_b_byte in Hb. unfold normalize in *.
    replace (0 * (H * W) + (y * W + x)) with (y * W + x) by lia.
    replace (1 * (H * W) + (y * W + x)) with (H * W + (y * W + x)) by lia.
    replace (2 * (H * W) + (y * W + x)) with (2 * H * W + (y * W + x)) by lia.
    auto.
  - eapply Forall_impl; [exact Hunit|].
    intros v Hv. unfold in_unit in Hv.
    apply andb_true_iff in Hv. exact Hv.
Qed.

Lemma tensor_encoder_planar_witness :
  exists t,
    Det.encode (to_int 2) (to_int 1) [0x00FF8000; 0xFF0000FF] = Ret t /\
    Z.of_nat (length t) = 6.
Proof.
  destruct (tensor_encoder_planar
              {| bm_width := 2; bm_height := 1;
                 bm_pixels := [0x00FF8000; 0xFF0000FF] |})
    as (t & Hrun & Hlen & _).
  - unfold valid_dims, INT_MAX. simpl. lia.
  - simpl. lia.
  - exists t. split; [exact Hrun | exact Hlen].
Defined.

(** C5, as stated, fails on [short_bitmap]: its buffer is smaller than
    [width * height] words, and the encoder throws no exception. *)
Lemma encoder_short_buffer_no_exception :
  ~ ((exists e,
        Det.encode (to_int (bm_width short_bitmap))
          (to_int (bm_height short_bitmap)) (bm_pixels short_bitmap)
        = Throw e) <->
     Z.of_nat (length (bm_pixels short_bitmap))
     < bm_width short_bitmap * bm_height short_bitmap).
Proof.
  intros [_ Hthrow].
  destruct Hthrow as [e He]; [simpl; lia|].
  vm_compute in He. discriminate He.
Qed.

(** C5, amended. The encoder has no size check and throws no exception:
    for dimensions in range, it returns when the buffer has at least
    [width * height] words, and reads past the end of the buffer
    (undefined behaviour) when the buffer is smaller. *)
Theorem tensor_encoder_buffer (bitmap : Bitmap) :
  valid_dims (bm_width bitmap) (bm_height bitmap) ->
  (bm_width bitmap * bm_height bitmap <= Z.of_nat (length (bm_pixels bitmap))
     -> exists t,
          Det.encode (to_int (bm_width bitmap)) (to_int (bm_height bitmap))
            (bm_pixels bitmap) = Ret t) /\
  (Z.of_nat (length (bm_pixels bitmap)) < bm_width bitmap * bm_height bitmap
     -> Det.encode (to_int (bm_width bitmap)) (to_int (bm_height bitmap))
          (bm_pixels bitmap) = Undef out_of_bounds) /\
  (forall e,
     Det.encode (to_int (bm_width bitmap)) (to_int (bm_height bitmap))
       (bm_pixels bitmap) <> Throw e).
Proof.
  destruct bitmap as [W H px]. cbn [bm_width bm_height bm_pixels].
  intros Hdims.
  destruct (valid_dims_int W H Hdims) as [-> ->].
  destruct Hdims as ((HW0 & HWmax) & HH0 & H3 & Hsize).
  assert (Hret : W * H <= Z.of_nat (length px) ->
                 exists t, Det.encode W H px = Ret t).
  { intros Hlen.
    destruct (encode_ret W H px HW0 HH0 Hsize H3) as (t & Hrun & _); [lia|].
    exists t. exact Hrun. }
  assert (Hub : Z.of_nat (length px) < W * H ->
                Det.encode W H px = Undef out_of_bounds).
  { intros Hlen. apply encode_undef; try assumption. lia. }
  split; [exact Hret|]. split; [exact Hub|].
  intros e He.
  destruct (Z.le_gt_cases (W * H) (Z.of_nat (length px))) as [Hle|Hgt].
  - destruct (Hret Hle) as [t Ht]. congruence.
  - rewrite Hub in He by lia. discriminate He.
Qed.

Lemma tensor_encoder_buffer_witness :
  Det.encode (to_int (bm_width short_bitmap))
    (to_int (bm_height short_bitmap)) (bm_pixels short_bitmap)
  = Undef out_of_bounds.
Proof.
  apply (tensor_encoder_buffer short_bitmap).
  - unfold valid_dims, INT_MAX. simpl. lia.
  - simpl. lia.
Defined.

(** ** The detection decoder on shapes in range *)

Example confidence_literals :
  f32_ratio 9 10 = conf_090 /\ f32_ratio 4 10 = conf_040 /\
  f32_ratio 5001 10000 = conf_05001 /\ f32_ratio 5 10 = f32_half.
Proof. repeat split; reflexivity. Qed.

Section Decoder.
Variables (N F : Z) (data : list f32).
Hypothesis HN : 0 <= N.
Hypothesis HF : 0 <= F.
Hypothesis Hsize : N * F <= INT_MAX.
Hypothesis Hlen : Z.of_nat (length data) = N * F.

Lemma decode_row_ret i :
  0 <= i < N -> decode_row data F i = Ret (tensor_row F data i).
Proof.
  intros Hi. unfold decode_row, tensor_row.
  destruct (for_int_ok
              (fun j detection =>
                 do p <- int_mul i F;
                 do k <- int_add p j;
                 do v <- ptr_read data k;
                 Ret (detection ++ [v]))
              (fun j detection =>
                 detection = take (Z.to_nat j) (drop (Z.to_nat (i * F)) data))
              0 F []) as (row & Hrun & Hrow).
  - assumption.
  - intros j detection Hj ->.
    assert (Hk : 0 <= i * F + j < N * F) by nia.
    destruct (lookup_lt_is_Some_2 data (Z.to_nat (i * F + j))) as [v Hv];
      [lia|].
    exists (take (Z.to_nat j) (drop (Z.to_nat (i * F)) data) ++ [v]).
    split.
    + rewrite (int_mul_ok i F) by (unfold INT_MIN, INT_MAX in *; nia).
      cbn [obind].
      rewrite (int_add_ok (i * F) j) by (unfold INT_MIN, INT_MAX in *; nia).
      cbn [obind]. rewrite (ptr_read_ok data _ v) by (assumption || lia).
      reflexivity.
    + replace (Z.to_nat (j + 1)) with (Datatypes.S (Z.to_nat j)) by lia.
      symmetry. apply take_S_r. rewrite lookup_drop.
      replace (Z.to_nat (i * F) + Z.to_nat j)%nat
        with (Z.to_nat (i * F + j)) by nia.
      assumption.
  - reflexivity.
  - rewrite Hrun, Hrow. reflexivity.
Qed.

Lemma tensor_row_length i :
  0 <= i < N -> Z.of_nat (length (tensor_row F data i)) = F.
Proof.
  intros Hi. unfold tensor_row.
  rewrite length_take, length_drop. nia.
Qed.

Lemma above_threshold_row row :
  Z.of_nat (length row) = F ->
  above_threshold row = Ret (retained F row).
Proof.
  intros Hrow. unfold above_threshold, retained. rewrite Hrow.
  destruct (Z.ltb_spec 8 F) as [Hgt|Hle]; [|reflexivity].
  unfold vector_get. cbn [Z.ltb Z.compare obind andb].
  change (Z.to_nat 8) with 8%nat.
  destruct (lookup_lt_is_Some_2 row 8) as [c Hc]; [lia|].
  rewrite Hc. reflexivity.
Qed.

Lemma decode_rows :
  for_int 0 N (fun i dets =>
    do detection <- decode_row data F i;
    do keep <- above_threshold detection;
    Ret (if keep : bool then dets ++ [detection] else dets)) []
  = Ret (List.filter (retained F) (tensor_rows N F data)).
Proof.
  destruct (for_int_ok
              (fun i dets =>
                 do detection <- decode_row data F i;
                 do keep <- above_threshold detection;
                 Ret (if keep : bool then dets ++ [detection] else dets))
              (fun i dets =>
                 dets = List.filter (retained F) (tensor_rows i F data))
              0 N []) as (dets & Hrun & Hdets).
  - assumption.
  - intros i dets Hi ->.
    rewrite decode_row_ret by assumption. cbn [obind].
    rewrite above_threshold_row by (apply tensor_row_length; assumption).
    cbn [obind]. eexists. split; [reflexivity|].
    unfold tensor_rows.
    replace (i + 1) with (Z.of_nat (Datatypes.S (Z.to_nat i))) by lia.
    rewrite seqZ_S, map_app, List.filter_app.
    replace (Z.of_nat (Z.to_nat i)) with i by lia.
    cbn [map List.filter]. rewrite Z.add_0_l.
    destruct (retained F (tensor_row F data i)).
    + reflexivity.
    + rewrite app_nil_r. reflexivity.
  - reflexivity.
  - rewrite Hrun, Hdets. reflexivity.
Qed.
End Decoder.

(** The decoder on small outputs: a NaN confidence, eight columns, a
    two-dimensional shape, ten columns, and data shorter than the shape
    announces. *)
Example decode_small_outputs :
  decode (geometry ++ [S754_nan]) [1; 1; 9] = Ret [] /\
  decode geometry [1; 1; 8] = Ret [] /\
  decode row_090 [1; 9] = Ret [] /\
  decode (row_090 ++ [f32_zero] ++ row_040 ++ [f32_one]) [1; 2; 10]
  = Ret [row_090 ++ [f32_zero]] /\
  decode geometry [1; 1; 9] = Undef out_of_bounds.
Proof. repeat split; vm_compute; reflexivity. Qed.

Lemma decode_shape (N F : Z) (data : list f32) :
  valid_shape N F ->
  Z.of_nat (length data) = N * F ->
  decode data [1; N; F] = Ret (List.filter (retained F) (tensor_rows N F data)).
Proof.
  intros ((HN0 & HNmax) & (HF0 & HFmax) & Hsize) Hlen.
  unfold decode.
  change (3 <=? Z.of_nat (length [1; N; F])) with true. cbv iota.
  unfold vector_get.
  change (1 <? 0) with false. change (2 <? 0) with false. cbv iota.
  change ([1; N; F] !! Z.to_nat 1) with (Some N).
  change ([1; N; F] !! Z.to_nat 2) with (Some F).
  cbn [obind].
  rewrite !to_int_id by (unfold INT_MIN, INT_MAX in *; lia).
  apply decode_rows; assumption.
Qed.

(** Splits a list of known length into its elements. *)
Ltac explode_row r H :=
  repeat (destruct r as [|? r]; [discriminate H|]);
  destruct r; [|discriminate H]; clear H.

(** C2. On an output of shape [(1, N, F)] in range, the decoder returns
    exactly the rows with [F > 8] whose value at position 8 is greater
    than 0.5, in the order of the tensor. For three rows of nine values
    with confidences 0.9, 0.4 and 0.5001 it returns the first and the
    third; a row with confidence exactly 0.5 is dropped. *)
Theorem detection_decoder_threshold :
  (forall (N F : Z) (data : list f32),
     valid_shape N F ->
     Z.of_nat (length data) = N * F ->
     decode data [1; N; F]
     = Ret (List.filter (retained F) (tensor_rows N F data))) /\
  (forall r1 r2 r3 : list f32,
     length r1 = 9%nat -> length r2 = 9%nat -> length r3 = 9%nat ->
     r1 !! 8%nat = Some conf_090 ->
     r2 !! 8%nat = Some conf_040 ->
     r3 !! 8%nat = Some conf_05001 ->
     decode (r1 ++ r2 ++ r3) [1; 3; 9] = Ret [r1; r3]) /\
  (forall r : list f32,
     length r = 9%nat -> r !! 8%nat = Some f32_half ->
     decode r [1; 1; 9] = Ret []).
Proof.
  split; [exact decode_shape|]. split.
  - intros r1 r2 r3 H1 H2 H3 C1 C2 C3.
    explode_row r1 H1. explode_row r2 H2. explode_row r3 H3.
    cbn in C1, C2, C3.
    injection C1 as ->. injection C2 as ->. injection C3 as ->.
    vm_compute. reflexivity.
  - intros r H1 C1. explode_row r H1. cbn in C1. injection C1 as ->.
    vm_compute. reflexivity.
Qed.

Lemma detection_decoder_threshold_witness :
  decode (row_090 ++ row_040 ++ row_05001) [1; 3; 9]
  = Ret (List.filter (retained 9)
           (tensor_rows 3 9 (row_090 ++ row_040 ++ row_05001))) /\
  decode (row_090 ++ row_040 ++ row_05001) [1; 3; 9]
  = Ret [row_090; row_05001] /\
  decode row_half [1; 1; 9] = Ret [].
Proof.
  split; [|split].
  - apply (proj1 detection_decoder_threshold).
    + unfold valid_shape, INT_MAX. lia.
    + reflexivity.
  - apply (proj1 (proj2 detection_decoder_threshold)); reflexivity.
  - apply (proj2 (proj2 detection_decoder_threshold)); reflexivity.
Defined.

(** C7. On an output with at least three shape dimensions and [N = 0]
    rows the decoder returns the empty sequence: it neither throws nor
    runs into undefined behaviour. *)
Theorem detection_decoder_empty (data : list f32) (outputShape : list Z) :
  (3 <= length outputShape)%nat ->
  outputShape !! 1%nat = Some 0 ->
  decode data outputShape = Ret [].
Proof.
  intros Hdims Hn. unfold decode.
  destruct (Z.leb_spec 3 (Z.of_nat (length outputShape))) as [_|Hlt]; [|lia].
  unfold vector_get. cbn [Z.ltb Z.compare].
  change (Z.to_nat 1) with 1%nat. rewrite Hn. cbn [obind].
  destruct (lookup_lt_is_Some_2 outputShape 2) as [f Hf]; [lia|].
  change (Z.to_nat 2) with 2%nat. rewrite Hf. cbn [obind].
  reflexivity.
Qed.

Lemma detection_decoder_empty_witness : decode [] [1; 0; 9] = Ret [].
Proof.
  apply detection_decoder_empty.
  - simpl. lia.
  - reflexivity.
Defined.

(** ** The heap during [nativeDetectText] and [nativeRecognizeText] *)

Lemma same_heap_refl w : same_heap w w.
Proof. repeat split. Qed.

Lemma same_heap_trans w1 w2 w3 :
  same_heap w1 w2 -> same_heap w2 w3 -> same_heap w1 w3.
Proof.
  intros (A1 & A2 & A3 & A4) (B1 & B2 & B3 & B4).
  repeat split; congruence.
Qed.

Lemma heap_stable_ret {A} (a : A) : heap_stable (ret a).
Proof. intros w. apply same_heap_refl. Qed.

Lemma heap_stable_lift {A} (o : outcome A) : heap_stable (lift o).
Proof. intros w. apply same_heap_refl. Qed.

Lemma heap_stable_emit e : heap_stable (emit e).
Proof. intros w. repeat split. Qed.

Lemma heap_stable_load_handle h : heap_stable (load_handle h).
Proof.
  intros w. unfold load_handle.
  destruct (handles w !! h); apply same_heap_refl.
Qed.

Lemma heap_stable_load_session s : heap_stable (load_session s).
Proof.
  intros w. unfold load_session.
  destruct (sessions w !! s); apply same_heap_refl.
Qed.

Lemma heap_stable_bind {A B} (m : M A) (k : A -> M B) :
  heap_stable m -> (forall a, heap_stable (k a)) -> heap_stable (bind m k).
Proof.
  intros Hm Hk w. unfold bind.
  pose proof (Hm w) as Hw.
  destruct (m w) as [[a|e|u] w']; cbn [snd] in *; try assumption.
  eapply same_heap_trans; [exact Hw | apply Hk].
Qed.

Lemma heap_stable_try_catch {A} (m : M A) (handler : cpp_exception -> M A) :
  heap_stable m -> (forall e, heap_stable (handler e)) ->
  heap_stable (try_catch m handler).
Proof.
  intros Hm Hh w. unfold try_catch.
  pose proof (Hm w) as Hw.
  destruct (m w) as [[a|e|u] w']; cbn [snd] in *; try assumption.
  eapply same_heap_trans; [exact Hw | apply Hh].
Qed.

Create HintDb heap discriminated.
#[local] Hint Resolve heap_stable_ret heap_stable_lift heap_stable_emit
  heap_stable_load_handle heap_stable_load_session : heap.

Ltac heap_stable_step :=
  first [ apply heap_stable_bind; [|intros ?]
        | apply heap_stable_try_catch; [|intros ?]
        | solve [auto with heap] ].

Lemma heap_stable_session_run s input : heap_stable (session_run s input).
Proof. unfold session_run. repeat heap_stable_step. Qed.

#[local] Hint Resolve heap_stable_session_run : heap.

Lemma heap_stable_detect handle bitmap :
  heap_stable (nativeDetectText handle bitmap).
Proof.
  unfold nativeDetectText, detect_body.
  destruct (handle =? 0); repeat heap_stable_step.
Qed.

Lemma heap_stable_recognize handle bitmap :
  heap_stable (nativeRecognizeText handle bitmap).
Proof.
  unfold nativeRecognizeText, recognize_body.
  destruct (handle =? 0); repeat heap_stable_step.
Qed.

Lemma valid_handle_same_heap w w' handle :
  same_heap w w' -> valid_handle w handle -> valid_handle w' handle.
Proof.
  intros (Hh & Hs & _) (Hnz & h & Hl & Hd & Hc & Hr).
  split; [assumption|]. exists h. rewrite Hh, Hs. auto.
Qed.

Lemma same_heap_sym w1 w2 : same_heap w1 w2 -> same_heap w2 w1.
Proof. intros (A1 & A2 & A3 & A4). repeat split; congruence. Qed.

Lemma heap_determined_ret {A} (a : A) : heap_determined (ret a).
Proof. intros w1 w2 _. reflexivity. Qed.

Lemma heap_determined_lift {A} (o : outcome A) : heap_determined (lift o).
Proof. intros w1 w2 _. reflexivity. Qed.

Lemma heap_determined_emit e : heap_determined (emit e).
Proof. intros w1 w2 _. reflexivity. Qed.

Lemma heap_determined_load_handle h : heap_determined (load_handle h).
Proof.
  intros w1 w2 (Hh & _). unfold load_handle. rewrite Hh.
  destruct (handles w1 !! h); reflexivity.
Qed.

Lemma heap_determined_load_session s : heap_determined (load_session s).
Proof.
  intros w1 w2 (_ & Hs & _). unfold load_session. rewrite Hs.
  destruct (sessions w1 !! s); reflexivity.
Qed.

Lemma heap_determined_bind {A B} (m : M A) (k : A -> M B) :
  heap_determined m -> heap_stable m ->
  (forall a, heap_determined (k a)) ->
  heap_determined (bind m k).
Proof.
  intros Hm Hst Hk w1 w2 Hsame. unfold bind.
  pose proof (Hm w1 w2 Hsame) as Hres.
  pose proof (Hst w1) as Hs1. pose proof (Hst w2) as Hs2.
  destruct (m w1) as [o1 w1'], (m w2) as [o2 w2'].
  cbn [fst snd] in *. subst o2.
  destruct o1 as [a|e|u]; cbn [fst]; try reflexivity.
  apply Hk.
  eapply same_heap_trans; [apply same_heap_sym; exact Hs1|].
  eapply same_heap_trans; [exact Hsame | exact Hs2].
Qed.

Lemma heap_determined_try_catch {A} (m : M A)
    (handler : cpp_exception -> M A) :
  heap_determined m -> heap_stable m ->
  (forall e, heap_determined (handler e)) ->
  heap_determined (try_catch m handler).
Proof.
  intros Hm Hst Hh w1 w2 Hsame. unfold try_catch.
  pose proof (Hm w1 w2 Hsame) as Hres.
  pose proof (Hst w1) as Hs1. pose proof (Hst w2) as Hs2.
  destruct (m w1) as [o1 w1'], (m w2) as [o2 w2'].
  cbn [fst snd] in *. subst o2.
  destruct o1 as [a|e|u]; cbn [fst]; try reflexivity.
  apply Hh.
  eapply same_heap_trans; [apply same_heap_sym; exact Hs1|].
  eapply same_heap_trans; [exact Hsame | exact Hs2].
Qed.

#[local] Hint Resolve heap_determined_ret heap_determined_lift
  heap_determined_emit heap_determined_load_handle
  heap_determined_load_session : heap.

Ltac heap_determined_step :=
  first [ apply heap_determined_bind; [| |intros ?]
        | apply heap_determined_try_catch; [| |intros ?]
        | solve [auto with heap]
        | solve [repeat heap_stable_step] ].

Lemma heap_determined_session_run s input :
  heap_determined (session_run s input).
Proof. unfold session_run. repeat heap_determined_step. Qed.

#[local] Hint Resolve heap_determined_session_run : heap.

Lemma heap_determined_detect handle bitmap :
  heap_determined (nativeDetectText handle bitmap).
Proof.
  unfold nativeDetectText, detect_body.
  destruct (handle =? 0); repeat heap_determined_step.
Qed.

Lemma heap_determined_recognize handle bitmap :
  heap_determined (nativeRecognizeText handle bitmap).
Proof.
  unfold nativeRecognizeText, recognize_body.
  destruct (handle =? 0); repeat heap_determined_step.
Qed.

Lemma bind_ret_inv {A B} (m : M A) (k : A -> M B) w (b : B) :
  fst (bind m k w) = Ret b ->
  exists a w', m w = (Ret a, w') /\ fst (k a w') = Ret b.
Proof.
  unfold bind. destruct (m w) as [[a|e|u] w']; cbn [fst]; try discriminate.
  intros Hk. exists a, w'. auto.
Qed.

Lemma try_catch_ret_inv {A} (m : M A) (handler : cpp_exception -> M A) w
    (a : A) :
  fst (try_catch m handler w) = Ret a ->
  fst (m w) = Ret a \/
  exists e w', m w = (Throw e, w') /\ fst (handler e w') = Ret a.
Proof.
  unfold try_catch. destruct (m w) as [[x|e|u] w']; cbn [fst]; eauto.
Qed.

Lemma try_catch_no_throw {A} (m : M A) (a : A) w e :
  fst (try_catch m (fun _ => ret a) w) <> Throw e.
Proof.
  unfold try_catch. destruct (m w) as [[x|e'|u] w']; cbn; discriminate.
Qed.

(** ** Stepping through the entry points *)

Ltac heap_simpl :=
  repeat (cbn [model_files handles sessions next_addr trace
               detSession clsSession recSession fst snd];
          rewrite ?lookup_insert_eq).

(** A model that fails to load makes [nativeInit] return the null handle. *)
Lemma nativeInit_null_on_failure (w : World) (detPath clsPath recPath : string) :
  model_files w detPath = None \/ model_files w clsPath = None \/
  model_files w recPath = None ->
  fst (nativeInit detPath clsPath recPath w) = Ret 0.
Proof.
  intros Hfail.
  unfold nativeInit, try_catch, bind, new_OCRHandle, new_Session,
    load_handle, store_handle, ret.
  heap_simpl.
  destruct (model_files w detPath) as [sd|]; [|reflexivity]. heap_simpl.
  destruct (model_files w clsPath) as [sc|]; [|reflexivity]. heap_simpl.
  destruct (model_files w recPath) as [sr|]; [|reflexivity].
  destruct Hfail as [H|[H|H]]; discriminate H.
Qed.

(** When a later model fails to load, the detection session created
    before it and the [OCRHandle] are still allocated on return. *)
Lemma nativeInit_keeps_loaded_session (w : World)
    (detPath clsPath recPath : string) (sd : Session) :
  model_files w detPath = Some sd ->
  model_files w clsPath = None \/ model_files w recPath = None ->
  fst (nativeInit detPath clsPath recPath w) = Ret 0 /\
  sessions (snd (nativeInit detPath clsPath recPath w))
    !! Z.pos (Pos.succ (next_addr w)) = Some sd /\
  is_Some (handles (snd (nativeInit detPath clsPath recPath w))
             !! Z.pos (next_addr w)).
Proof.
  intros Hdet Hfail.
  unfold nativeInit, try_catch, bind, new_OCRHandle, new_Session,
    load_handle, store_handle, ret.
  heap_simpl. rewrite Hdet. heap_simpl.
  destruct (model_files w clsPath) as [sc|]; heap_simpl.
  - destruct (model_files w recPath) as [sr|]; heap_simpl.
    + destruct Hfail as [H|H]; discriminate H.
    + split; [reflexivity|]. split; [|eauto].
      rewrite lookup_insert_ne by lia. apply lookup_insert_eq.
  - split; [reflexivity|]. split; [|eauto]. reflexivity.
Qed.

(** When the three models load, the handle returned owns the three
    sessions. *)
Lemma nativeInit_success (w : World) (detPath clsPath recPath : string)
    (sd sc sr : Session) :
  model_files w detPath = Some sd ->
  model_files w clsPath = Some sc ->
  model_files w recPath = Some sr ->
  let a := next_addr w in
  fst (nativeInit detPath clsPath recPath w) = Ret (Z.pos a) /\
  handles (snd (nativeInit detPath clsPath recPath w)) !! Z.pos a
  = Some {| detSession := Z.pos (Pos.succ a);
            clsSession := Z.pos (Pos.succ (Pos.succ a));
            recSession := Z.pos (Pos.succ (Pos.succ (Pos.succ a))) |}.
Proof.
  intros Hdet Hcls Hrec a. subst a.
  unfold nativeInit, try_catch, bind, new_OCRHandle, new_Session,
    load_handle, store_handle, ret.
  heap_simpl. rewrite Hdet. heap_simpl. rewrite Hcls. heap_simpl.
  rewrite Hrec. heap_simpl. split; reflexivity.
Qed.

Lemma bind_eq {A B} (m : M A) (k : A -> M B) w a w' :
  m w = (Ret a, w') -> bind m k w = k a w'.
Proof. intros Hm. unfold bind. rewrite Hm. reflexivity. Qed.

Lemma lift_eq {A} (o : outcome A) (a : A) w :
  o = Ret a -> lift o w = (Ret a, w).
Proof. intros ->. reflexivity. Qed.

Lemma load_handle_eq w handle h :
  handles w !! handle = Some h -> load_handle handle w = (Ret h, w).
Proof. intros Hh. unfold load_handle. rewrite Hh. reflexivity. Qed.

Lemma load_session_eq w s o :
  sessions w !! s = Some o -> load_session s w = (Ret o, w).
Proof. intros Hs. unfold load_session. rewrite Hs. reflexivity. Qed.

Lemma session_run_eq w s o name input outputs :
  sessions w !! s = Some o ->
  GetInputName o = Ret name ->
  Run o name input = Ret outputs ->
  session_run s input w = (Ret outputs, snd (emit (EvRun s input) w)).
Proof.
  intros Hs Hname Hrun. unfold session_run.
  rewrite (bind_eq _ _ w o w) by (apply load_session_eq; assumption).
  rewrite (bind_eq _ _ w name w) by (apply lift_eq; assumption).
  erewrite bind_eq by reflexivity.
  apply lift_eq. assumption.
Qed.

(** A call of [nativeDetectText] in which nothing fails: the detection
    session runs once, on the encoded tensor with dimensions
    [(1, 3, height, width)], and the call returns what the decoder makes
    of the first output. *)
Lemma detect_returns_decoded (handle : Z) (bitmap : Bitmap) (w : World)
    (h : OCRHandle) (o : Session) (t : list f32) (name : string)
    (out0 : Tensor) (rest : list Tensor) (dets : list (list f32)) :
  handle <> 0 ->
  handles w !! handle = Some h ->
  sessions w !! detSession h = Some o ->
  Det.encode (to_int (bm_width bitmap)) (to_int (bm_height bitmap))
    (bm_pixels bitmap) = Ret t ->
  GetInputName o = Ret name ->
  Run o name {| t_data := t;
                t_dims := [1; 3; to_int (bm_height bitmap);
                           to_int (bm_width bitmap)] |}
  = Ret (out0 :: rest) ->
  decode (t_data out0) (t_dims out0) = Ret dets ->
  fst (nativeDetectText handle bitmap w) = Ret (Some dets) /\
  trace (snd (nativeDetectText handle bitmap w))
  = trace w ++
    [EvGetInfo; EvLockPixels; EvUnlockPixels;
     EvRun (detSession h)
       {| t_data := t;
          t_dims := [1; 3; to_int (bm_height bitmap);
                     to_int (bm_width bitmap)] |}].
Proof.
  intros Hnz Hh Ho Henc Hname Hrun Hdec.
  unfold nativeDetectText.
  rewrite (proj2 (Z.eqb_neq handle 0) Hnz).
  unfold try_catch, detect_body.
  erewrite bind_eq by reflexivity.
  erewrite bind_eq by reflexivity.
  erewrite bind_eq by (apply lift_eq; exact Henc).
  erewrite bind_eq by reflexivity.
  erewrite bind_eq by (apply load_handle_eq; exact Hh).
  erewrite bind_eq by (eapply session_run_eq; [exact Ho | exact Hname | exact Hrun]).
  erewrite bind_eq by (apply lift_eq; reflexivity).
  erewrite bind_eq by (apply lift_eq; exact Hdec).
  cbn [ret fst snd emit trace]. rewrite <- !app_assoc. split; reflexivity.
Qed.

(** ** The entry points *)

(** C6. With the null handle both calls return the null result at once:
    the world is the one they started from, so no bitmap call, no
    encoding and no session run took place. *)
Theorem null_handle_returns_immediately (bitmap : Bitmap) (w : World) :
  nativeDetectText 0 bitmap w = (Ret None, w) /\
  nativeRecognizeText 0 bitmap w = (Ret None, w).
Proof. split; reflexivity. Qed.

(** With a live handle, by contrast, the call locks the bitmap and runs
    the detection session on the encoded tensor. *)
Example detect_trace :
  trace (snd (nativeDetectText 1 sample_bitmap ready_world))
  = trace ready_world ++
    [EvGetInfo; EvLockPixels; EvUnlockPixels;
     EvRun 2 {| t_data := [normalize 255; normalize 0; normalize 128;
                            normalize 0; normalize 0; normalize 255];
                t_dims := [1; 3; 1; 2] |}].
Proof. vm_compute. reflexivity. Qed.

(** C8. On a valid handle, an exception thrown inside the [try] block of
    [nativeDetectText] or [nativeRecognizeText] ends the call with the
    null result; neither call ever ends with an exception; the heap
    after the call is the heap before it, so the handle is still valid
    and owns the same three sessions; and a later call on the handle ends
    as it would have ended had the earlier call not taken place. *)
Theorem stage_boundary_catches (handle : Z) (bitmap : Bitmap) (w : World) :
  valid_handle w handle ->
  (forall e w', detect_body handle bitmap w = (Throw e, w') ->
     nativeDetectText handle bitmap w = (Ret None, w')) /\
  (forall e w', recognize_body handle bitmap w = (Throw e, w') ->
     nativeRecognizeText handle bitmap w = (Ret None, w')) /\
  (forall e, fst (nativeDetectText handle bitmap w) <> Throw e) /\
  (forall e, fst (nativeRecognizeText handle bitmap w) <> Throw e) /\
  (forall w',
     w' = snd (nativeDetectText handle bitmap w) \/
     w' = snd (nativeRecognizeText handle bitmap w) ->
     handles w' = handles w /\ sessions w' = sessions w /\
     valid_handle w' handle /\
     forall next,
       fst (nativeDetectText handle next w')
       = fst (nativeDetectText handle next w) /\
       fst (nativeRecognizeText handle next w')
       = fst (nativeRecognizeText handle next w)).
Proof.
  intros Hvalid. pose proof Hvalid as (Hnz & _).
  assert (Hz : (handle =? 0) = false) by (apply Z.eqb_neq; assumption).
  split; [|split; [|split; [|split]]].
  - intros e w' Hbody. unfold nativeDetectText, try_catch.
    rewrite Hz, Hbody. reflexivity.
  - intros e w' Hbody. unfold nativeRecognizeText, try_catch.
    rewrite Hz, Hbody. reflexivity.
  - intros e. unfold nativeDetectText. rewrite Hz.
    apply try_catch_no_throw.
  - intros e. unfold nativeRecognizeText. rewrite Hz.
    apply try_catch_no_throw.
  - intros w' Hw'.
    assert (Hsame : same_heap w w').
    { destruct Hw' as [-> | ->];
        [apply heap_stable_detect | apply heap_stable_recognize]. }
    split; [apply Hsame|]. split; [apply Hsame|]. split.
    + eapply valid_handle_same_heap; eassumption.
    + intros next. split.
      * apply heap_determined_detect, same_heap_sym, Hsame.
      * apply heap_determined_recognize, same_heap_sym, Hsame.
Qed.

Lemma stage_boundary_catches_witness :
  valid_handle failing_world 1 /\
  nativeDetectText 1 sample_bitmap failing_world
  = (Ret None, snd (detect_body 1 sample_bitmap failing_world)) /\
  nativeRecognizeText 1 sample_bitmap failing_world
  = (Ret None, snd (recognize_body 1 sample_bitmap failing_world)) /\
  handles (snd (nativeDetectText 1 sample_bitmap failing_world))
  = handles failing_world /\
  sessions (snd (nativeDetectText 1 sample_bitmap failing_world))
  = sessions failing_world.
Proof.
  assert (Hvalid : valid_handle failing_world 1).
  { split; [lia|].
    exists {| detSession := 2; clsSession := 3; recSession := 4 |}.
    repeat split; try (eexists; vm_compute; reflexivity). }
  split; [exact Hvalid|].
  destruct (stage_boundary_catches 1 sample_bitmap failing_world Hvalid)
    as (Hdet & Hrec & _ & _ & Hheap).
  split; [|split].
  - apply (Hdet (Ort_Exception "run failed")). vm_compute. reflexivity.
  - apply (Hrec (Ort_Exception "run failed")). vm_compute. reflexivity.
  - destruct (Hheap (snd (nativeDetectText 1 sample_bitmap failing_world)))
      as (Hh & Hs & _); [left; reflexivity|].
    split; [exact Hh | exact Hs].
Defined.

(** A string returned by [nativeRecognizeText] is ["123456"]. *)
Lemma recognize_some_constant handle bitmap w s :
  fst (nativeRecognizeText handle bitmap w) = Ret (Some s) ->
  s = "123456"%string.
Proof.
  unfold nativeRecognizeText.
  destruct (handle =? 0); [cbn; congruence|].
  intros Hrun. apply try_catch_ret_inv in Hrun.
  destruct Hrun as [Hbody | (e & w' & _ & Hnull)];
    [|cbn in Hnull; congruence].
  unfold recognize_body in Hbody.
  repeat (apply bind_ret_inv in Hbody;
          destruct Hbody as (? & ? & _ & Hbody)).
  cbn in Hbody. congruence.
Qed.

(** When the [try] block of [nativeRecognizeText] runs to its end, the
    call returns ["123456"]. *)
Lemma recognize_completes_constant handle bitmap w r :
  handle <> 0 ->
  fst (recognize_body handle bitmap w) = Ret r ->
  fst (nativeRecognizeText handle bitmap w) = Ret (Some "123456"%string).
Proof.
  intros Hnz Hbody. unfold nativeRecognizeText, try_catch.
  rewrite (proj2 (Z.eqb_neq handle 0) Hnz).
  destruct (recognize_body handle bitmap w) as [o w'] eqn:Hrun.
  cbn [fst] in Hbody. subst o. cbn [fst].
  assert (Hfst : fst (recognize_body handle bitmap w) = Ret r)
    by (rewrite Hrun; reflexivity).
  unfold recognize_body in Hfst.
  repeat (apply bind_ret_inv in Hfst;
          destruct Hfst as (? & ? & _ & Hfst)).
  cbn in Hfst. congruence.
Qed.

(** C9. For non-null handles and any two images, when the [try] block of
    [nativeRecognizeText] runs to its end on both, both calls return the
    string ["123456"]; and whatever string a call returns is that string.
    The worlds of the two calls are arbitrary, hence so are the
    recognition models and their output tensors. *)
Theorem recognize_constant (handle1 handle2 : Z) (bitmap1 bitmap2 : Bitmap)
    (w1 w2 : World) :
  (forall r1 r2,
     handle1 <> 0 -> handle2 <> 0 ->
     fst (recognize_body handle1 bitmap1 w1) = Ret r1 ->
     fst (recognize_body handle2 bitmap2 w2) = Ret r2 ->
     fst (nativeRecognizeText handle1 bitmap1 w1)
     = Ret (Some "123456"%string) /\
     fst (nativeRecognizeText handle2 bitmap2 w2)
     = Ret (Some "123456"%string)) /\
  (forall s1 s2,
     fst (nativeRecognizeText handle1 bitmap1 w1) = Ret (Some s1) ->
     fst (nativeRecognizeText handle2 bitmap2 w2) = Ret (Some s2) ->
     s1 = "123456"%string /\ s2 = s1).
Proof.
  split.
  - intros r1 r2 Hnz1 Hnz2 H1 H2. split.
    + exact (recognize_completes_constant _ _ _ _ Hnz1 H1).
    + exact (recognize_completes_constant _ _ _ _ Hnz2 H2).
  - intros s1 s2 H1 H2.
    rewrite (recognize_some_constant _ _ _ _ H1),
      (recognize_some_constant _ _ _ _ H2). auto.
Qed.

Lemma recognize_constant_witness :
  (fst (nativeRecognizeText 1 sample_bitmap ready_world)
   = Ret (Some "123456"%string) /\
   fst (nativeRecognizeText 1 other_bitmap ready_world)
   = Ret (Some "123456"%string)) /\
  ("123456"%string = "123456"%string /\ "123456"%string = "123456"%string).
Proof.
  split.
  - apply (proj1 (recognize_constant 1 1 sample_bitmap other_bitmap
                    ready_world ready_world)
             (Some "123456"%string) (Some "123456"%string));
      try lia; vm_compute; reflexivity.
  - apply (proj2 (recognize_constant 1 1 sample_bitmap other_bitmap
                    ready_world ready_world));
      vm_compute; reflexivity.
Defined.

(** C10. The encoder of [nativeRecognizeText] and the encoder of
    [nativeDetectText] are the same function: on every width, height and
    pixel buffer they end the same way and, when they return, return the
    same tensor. *)
Theorem recognize_encoder_is_detect_encoder
    (width height : Z) (rgbaPixels : list Z) :
  Rec.encode width height rgbaPixels = Det.encode width height rgbaPixels.
Proof.
  unfold Rec.encode, Det.encode, Rec.encode_pixel, Det.encode_pixel.
  reflexivity.
Qed.

(** C4, on the code. When the detection model loads and the
    classification model does not, [nativeInit] returns the null handle,
    but the [OCRHandle] and the detection session it had created stay
    allocated: nothing deleted them. *)
Theorem nativeInit_failure_leaks :
  fst (nativeInit "det.onnx" "cls.onnx" "rec.onnx"
         (fresh_world files_without_cls)) = Ret 0 /\
  handles (snd (nativeInit "det.onnx" "cls.onnx" "rec.onnx"
                  (fresh_world files_without_cls))) !! 1
  = Some {| detSession := 2; clsSession := 0; recSession := 0 |} /\
  sessions (snd (nativeInit "det.onnx" "cls.onnx" "rec.onnx"
                   (fresh_world files_without_cls))) !! 2
  = Some det_model /\
  trace (snd (nativeInit "det.onnx" "cls.onnx" "rec.onnx"
                (fresh_world files_without_cls)))
  = [EvNewSession "det.onnx" 2].
Proof. repeat split; vm_compute; reflexivity. Qed.

(** [nativeDispose], by contrast, deletes the three sessions and the
    handle. *)
Example dispose_releases :
  fst (nativeDispose 1 ready_world) = Ret tt /\
  sessions (snd (nativeDispose 1 ready_world)) = ∅ /\
  handles (snd (nativeDispose 1 ready_world)) = ∅.
Proof. repeat split; vm_compute; reflexivity. Qed.

(** When every model loads, [nativeInit] returns a handle that owns the
    three sessions. *)
Example init_success :
  fst (nativeInit "det.onnx" "cls.onnx" "rec.onnx"
         (fresh_world files_complete)) = Ret 1 /\
  handles ready_world !! 1
  = Some {| detSession := 2; clsSession := 3; recSession := 4 |} /\
  sessions ready_world !! 2 = Some det_model /\
  sessions ready_world !! 3 = Some cls_model /\
  sessions ready_world !! 4 = Some rec_model.
Proof. repeat split; vm_compute; reflexivity. Qed.

(** The decode of the specification on the index sequence
    [4, 4, 0, 7, 7, 7, 1] with blank 0: the symbols 4, 7 and 1. *)
Lemma spec_greedy_decode_example (vocabulary : list string) (v4 v7 v1 : string) :
  vocabulary !! 4%nat = Some v4 ->
  vocabulary !! 7%nat = Some v7 ->
  vocabulary !! 1%nat = Some v1 ->
  spec_greedy_decode 0 vocabulary [4; 4; 0; 7; 7; 7; 1]%nat
  = (v4 ++ v7 ++ v1)%string.
Proof.
  intros H4 H7 H1. unfold spec_greedy_decode. cbn.
  rewrite H4, H7, H1. reflexivity.
Qed.

(** C3, on the code. The recognition session of [ready_world] answers
    with an output whose timesteps select the indices 4, 4, 0, 7, 7, 7, 1;
    the decode of the specification reads it as "360" over the digit
    vocabulary, and [nativeRecognizeText] returns "123456". *)
Theorem recognize_ignores_output :
  sessions ready_world !! 4 = Some rec_model /\
  (forall name input, Run rec_model name input = Ret [ctc_output]) /\
  map spec_argmax (spec_timesteps 7 11 (t_data ctc_output))
  = [4; 4; 0; 7; 7; 7; 1]%nat /\
  spec_greedy_decode 0 digits_vocabulary [4; 4; 0; 7; 7; 7; 1]%nat
  = "360"%string /\
  fst (nativeRecognizeText 1 sample_bitmap ready_world)
  = Ret (Some "123456"%string) /\
  fst (nativeRecognizeText 1 sample_bitmap ready_world)
  <> Ret (Some (spec_greedy_decode 0 digits_vocabulary
                  (map spec_argmax
                     (spec_timesteps 7 11 (t_data ctc_output))))).
Proof.
  repeat split; try (vm_compute; reflexivity).
  vm_compute. discriminate.
Qed.

(** ** More on loops *)

(** Loops whose bodies agree on the range of the counter agree. *)
Lemma for_loop_ext {S} (body1 body2 : Z -> S -> outcome S) n :
  forall lo s,
    (forall i s0, lo <= i < lo + Z.of_nat n -> body1 i s0 = body2 i s0) ->
    for_loop n lo body1 s = for_loop n lo body2 s.
Proof.
  induction n as [|n IH]; intros lo s Hext; [reflexivity|].
  cbn [for_loop]. rewrite Hext by lia.
  destruct (body2 lo s) as [s1| |]; cbn [obind]; try reflexivity.
  apply IH. intros i s0 Hi. apply Hext. lia.
Qed.

Lemma for_int_ext {S} (body1 body2 : Z -> S -> outcome S) lo hi s :
  (forall i s0, lo <= i < hi -> body1 i s0 = body2 i s0) ->
  for_int lo hi body1 s = for_int lo hi body2 s.
Proof.
  intros Hext. unfold for_int. apply for_loop_ext.
  intros i s0 Hi. apply Hext. lia.
Qed.

(** A loop that returns kept an invariant that every returning iteration
    keeps. *)
Lemma for_loop_post {S} (body : Z -> S -> outcome S) (Inv : Z -> S -> Prop) n :
  forall lo s s',
    (forall i s0 s1, lo <= i < lo + Z.of_nat n -> Inv i s0 ->
       body i s0 = Ret s1 -> Inv (i + 1) s1) ->
    Inv lo s ->
    for_loop n lo body s = Ret s' ->
    Inv (lo + Z.of_nat n) s'.
Proof.
  induction n as [|n IH]; intros lo s s' Hstep Hinv Hrun.
  - cbn in Hrun. injection Hrun as <-. rewrite Z.add_0_r. assumption.
  - cbn [for_loop] in Hrun.
    destruct (body lo s) as [s1| |] eqn:Hb; cbn [obind] in Hrun;
      try discriminate.
    replace (lo + Z.of_nat (Datatypes.S n)) with (lo + 1 + Z.of_nat n) by lia.
    apply (IH (lo + 1) s1 s').
    + intros i s0 s2 Hi. apply Hstep. lia.
    + apply (Hstep lo s s1); [lia | assumption | assumption].
    + assumption.
Qed.

Lemma for_int_post {S} (body : Z -> S -> outcome S) (Inv : Z -> S -> Prop)
    lo hi s s' :
  lo <= hi ->
  (forall i s0 s1, lo <= i < hi -> Inv i s0 ->
     body i s0 = Ret s1 -> Inv (i + 1) s1) ->
  Inv lo s ->
  for_int lo hi body s = Ret s' ->
  Inv hi s'.
Proof.
  intros Hle Hstep Hinv Hrun. unfold for_int in Hrun.
  replace hi with (lo + Z.of_nat (Z.to_nat (hi - lo))) by lia.
  eapply for_loop_post; try eassumption.
  intros i s0 s1 Hi. apply Hstep. lia.
Qed.

(** ** What the encoder does not look at *)

Lemma same_rgb_bytes p p' :
  same_rgb p p' ->
  pixel_r p = pixel_r p' /\ pixel_g p = pixel_g p' /\ pixel_b p = pixel_b p'.
Proof.
  unfold same_rgb. intros Hrgb.
  rewrite !pixel_r_byte, !pixel_g_byte, !pixel_b_byte. unfold byte_of.
  change (2 ^ (8 * 2)) with 65536. change (2 ^ (8 * 1)) with 256.
  change (2 ^ (8 * 0)) with 1. rewrite !Z.div_1_r.
  change (2 ^ 24) with (65536 * 256) in Hrgb.
  rewrite !Z.rem_mul_r in Hrgb by lia.
  pose proof (Z.mod_pos_bound p 65536 ltac:(lia)) as Hp.
  pose proof (Z.mod_pos_bound p' 65536 ltac:(lia)) as Hp'.
  pose proof (Z.mod_pos_bound (p / 65536) 256 ltac:(lia)) as Hq.
  pose proof (Z.mod_pos_bound (p' / 65536) 256 ltac:(lia)) as Hq'.
  assert (Hlow : p mod 65536 = p' mod 65536) by lia.
  split; [lia|].
  change 65536 with (256 * 256) in Hlow.
  rewrite !Z.rem_mul_r in Hlow by lia.
  pose proof (Z.mod_pos_bound p 256 ltac:(lia)) as Hb.
  pose proof (Z.mod_pos_bound p' 256 ltac:(lia)) as Hb'.
  pose proof (Z.mod_pos_bound (p / 256) 256 ltac:(lia)) as Hg.
  pose proof (Z.mod_pos_bound (p' / 256) 256 ltac:(lia)) as Hg'.
  split; lia.
Qed.

Lemma ptr_read_same_rgb px px' i :
  Forall2 same_rgb px px' ->
  (exists u, ptr_read px i = Undef u /\ ptr_read px' i = Undef u) \/
  (exists p p', ptr_read px i = Ret p /\ ptr_read px' i = Ret p' /\
                same_rgb p p').
Proof.
  intros Hall. unfold ptr_read.
  destruct (i <? 0); [left; eauto|].
  destruct (px !! Z.to_nat i) as [p|] eqn:Hp.
  - destruct (Forall2_lookup_l _ _ _ _ _ Hall Hp) as (p' & Hp' & Hrgb).
    rewrite Hp'. right. eauto.
  - assert (Hnone : px' !! Z.to_nat i = None).
    { apply lookup_ge_None. rewrite <- (Forall2_length _ _ _ Hall).
      apply lookup_ge_None. assumption. }
    rewrite Hnone. left. eauto.
Qed.

Lemma encode_pixel_same_rgb width height px px' y x t :
  Forall2 same_rgb px px' ->
  Det.encode_pixel width height px y x t
  = Det.encode_pixel width height px' y x t.
Proof.
  intros Hall. unfold Det.encode_pixel.
  destruct (int_mul y width) as [yw| |]; cbn [obind]; try reflexivity.
  destruct (int_add yw x) as [i| |]; cbn [obind]; try reflexivity.
  destruct (ptr_read_same_rgb px px' i Hall)
    as [(u & -> & ->) | (p & p' & -> & -> & Hrgb)]; [reflexivity|].
  cbn [obind].
  destruct (same_rgb_bytes p p' Hrgb) as (-> & -> & ->). reflexivity.
Qed.

(** X1. The encoder does not look at bits 24-31 of the pixel words: two
    buffers whose words agree on bits 0-23 are encoded alike, whatever
    the width and height, failures included. *)
Theorem encoder_ignores_alpha (width height : Z) (px px' : list Z) :
  Forall2 same_rgb px px' ->
  Det.encode width height px = Det.encode width height px'.
Proof.
  intros Hall. unfold Det.encode.
  destruct (int_mul 3 height) as [h3| |]; cbn [obind]; try reflexivity.
  destruct (int_mul h3 width) as [n| |]; cbn [obind]; try reflexivity.
  destruct (vector_alloc n) as [t| |]; cbn [obind]; try reflexivity.
  apply for_int_ext. intros y t0 _.
  apply for_int_ext. intros x t1 _.
  apply encode_pixel_same_rgb. assumption.
Qed.

Lemma encoder_ignores_alpha_witness :
  Det.encode 2 1 [0x00FF8000; 0xFF0000FF]
  = Det.encode 2 1 [0xFFFF8000; 0x120000FF].
Proof.
  apply encoder_ignores_alpha.
  repeat constructor; reflexivity.
Defined.

Lemma int_mul_ret_inv a b c : int_mul a b = Ret c -> c = a * b.
Proof. unfold int_mul. destruct (in_int (a * b)); congruence. Qed.

Lemma int_add_ret_inv a b c : int_add a b = Ret c -> c = a + b.
Proof. unfold int_add. destruct (in_int (a + b)); congruence. Qed.

Lemma encode_pixel_prefix width height px extra y x t :
  0 <= y < height -> 0 <= x < width ->
  height * width <= Z.of_nat (length px) ->
  Det.encode_pixel width height (px ++ extra) y x t
  = Det.encode_pixel width height px y x t.
Proof.
  intros Hy Hx Hlen. unfold Det.encode_pixel.
  destruct (int_mul y width) as [yw| |] eqn:Hyw; cbn [obind];
    try reflexivity.
  apply int_mul_ret_inv in Hyw. subst yw.
  destruct (int_add (y * width) x) as [i| |] eqn:Hi; cbn [obind];
    try reflexivity.
  apply int_add_ret_inv in Hi. subst i.
  assert (Hread : ptr_read (px ++ extra) (y * width + x)
                  = ptr_read px (y * width + x)).
  { unfold ptr_read. destruct (y * width + x <? 0); [reflexivity|].
    rewrite lookup_app_l by nia. reflexivity. }
  rewrite Hread. reflexivity.
Qed.

(** X2. The encoder reads the first [height * width] words only: words
    that follow them in the buffer do not change its result. *)
Theorem encoder_ignores_trailing (width height : Z) (px extra : list Z) :
  height * width <= Z.of_nat (length px) ->
  Det.encode width height (px ++ extra) = Det.encode width height px.
Proof.
  intros Hlen. unfold Det.encode.
  destruct (int_mul 3 height) as [h3| |]; cbn [obind]; try reflexivity.
  destruct (int_mul h3 width) as [n| |]; cbn [obind]; try reflexivity.
  destruct (vector_alloc n) as [t| |]; cbn [obind]; try reflexivity.
  apply for_int_ext. intros y t0 Hy.
  apply for_int_ext. intros x t1 Hx.
  apply encode_pixel_prefix; assumption.
Qed.

Lemma encoder_ignores_trailing_witness :
  Det.encode 2 1 ([0x00FF8000; 0xFF0000FF] ++ [0x00ABCDEF; 7])
  = Det.encode 2 1 [0x00FF8000; 0xFF0000FF].
Proof.
  apply encoder_ignores_trailing. simpl. lia.
Defined.

Lemma normalize_order_table :
  forallb (fun c1 =>
    forallb (fun c2 =>
      implb (c1 <? c2) (f32_gt (normalize c2) (normalize c1)))
      (seqZ 0 256)) (seqZ 0 256) = true.
Proof. vm_compute. reflexivity. Qed.

(** X3. The normalisation [c / 255.0f] is strictly increasing on bytes,
    with [0] sent to [0.0f] and [255] to [1.0f] exactly: distinct channel
    values give distinct floats, in the same order. *)
Theorem normalize_strictly_increasing (c1 c2 : Z) :
  0 <= c1 -> c1 < c2 -> c2 < 256 ->
  f32_gt (normalize c2) (normalize c1) = true /\
  normalize c1 <> normalize c2 /\
  normalize 0 = f32_zero /\ normalize 255 = f32_one.
Proof.
  intros H0 Hlt H256.
  assert (Hgt : f32_gt (normalize c2) (normalize c1) = true).
  { pose proof normalize_order_table as Htab.
    rewrite forallb_forall in Htab.
    specialize (Htab c1). rewrite forallb_forall in Htab.
    assert (Hin1 : In c1 (seqZ 0 256))
      by (apply list_elem_of_In, elem_of_seqZ; lia).
    assert (Hin2 : In c2 (seqZ 0 256))
      by (apply list_elem_of_In, elem_of_seqZ; lia).
    specialize (Htab Hin1 c2 Hin2).
    rewrite (proj2 (Z.ltb_lt c1 c2) Hlt) in Htab. exact Htab. }
  split; [exact Hgt|]. split; [|split; reflexivity].
  intros Heq. rewrite Heq in Hgt.
  unfold f32_gt, SFltb in Hgt.
  destruct (normalize c2) as [s|s| |s m e]; cbn in Hgt; try discriminate.
  - destruct s; cbn in Hgt; discriminate.
  - destruct s; rewrite ?Z.compare_refl, ?Pos.compare_cont_refl in Hgt;
      cbn in Hgt; discriminate.
Qed.

Lemma normalize_strictly_increasing_witness :
  f32_gt (normalize 128) (normalize 127) = true.
Proof.
  apply (normalize_strictly_increasing 127 128); lia.
Defined.

(** ** The decoder and the extent of the output data *)

Section DecoderBounds.
Variables (F : Z) (data : list f32).
Hypothesis HF : 0 <= F.

Lemma decode_row_step i j detection v :
  0 <= i -> 0 <= j < F -> (i + 1) * F <= INT_MAX ->
  data !! Z.to_nat (i * F + j) = Some v ->
  (do p <- int_mul i F;
   do k <- int_add p j;
   do v <- ptr_read data k;
   Ret (detection ++ [v])) = Ret (detection ++ [v]).
Proof.
  intros Hi Hj Hmax Hv.
  rewrite (int_mul_ok i F) by (unfold INT_MIN, INT_MAX in *; nia).
  cbn [obind].
  rewrite (int_add_ok (i * F) j) by (unfold INT_MIN, INT_MAX in *; nia).
  cbn [obind]. rewrite (ptr_read_ok data _ v) by (assumption || nia).
  reflexivity.
Qed.

(** A row that lies inside the data is copied as it is. *)
Lemma decode_row_in_bounds i :
  0 <= i -> (i + 1) * F <= Z.of_nat (length data) ->
  (i + 1) * F <= INT_MAX ->
  decode_row data F i = Ret (tensor_row F data i).
Proof.
  intros Hi Hlen Hmax. unfold decode_row, tensor_row.
  destruct (for_int_ok
              (fun j detection =>
                 do p <- int_mul i F;
                 do k <- int_add p j;
                 do v <- ptr_read data k;
                 Ret (detection ++ [v]))
              (fun j detection =>
                 detection = take (Z.to_nat j) (drop (Z.to_nat (i * F)) data))
              0 F []) as (row & Hrun & Hrow).
  - assumption.
  - intros j detection Hj ->.
    destruct (lookup_lt_is_Some_2 data (Z.to_nat (i * F + j))) as [v Hv];
      [nia|].
    exists (take (Z.to_nat j) (drop (Z.to_nat (i * F)) data) ++ [v]).
    split; [apply decode_row_step; assumption|].
    replace (Z.to_nat (j + 1)) with (Datatypes.S (Z.to_nat j)) by lia.
    symmetry. apply take_S_r. rewrite lookup_drop.
    replace (Z.to_nat (i * F) + Z.to_nat j)%nat
      with (Z.to_nat (i * F + j)) by nia.
    assumption.
  - reflexivity.
  - rewrite Hrun, Hrow. reflexivity.
Qed.

(** A row that starts inside the data and ends after it is read past the
    end of the data. *)
Lemma decode_row_past i :
  0 <= i ->
  i * F <= Z.of_nat (length data) < (i + 1) * F ->
  (i + 1) * F <= INT_MAX ->
  decode_row data F i = Undef out_of_bounds.
Proof.
  intros Hi Hlen Hmax. unfold decode_row.
  apply (for_int_undef _ (fun _ _ => True) 0 F
           (Z.of_nat (length data) - i * F)).
  - lia.
  - intros j detection Hj _.
    destruct (lookup_lt_is_Some_2 data (Z.to_nat (i * F + j))) as [v Hv];
      [nia|].
    exists (detection ++ [v]). split; [|exact I].
    apply decode_row_step; try assumption; lia.
  - intros detection _.
    rewrite (int_mul_ok i F) by (unfold INT_MIN, INT_MAX in *; nia).
    cbn [obind].
    rewrite int_add_ok by (unfold INT_MIN, INT_MAX in *; nia).
    cbn [obind]. rewrite ptr_read_past by lia. reflexivity.
  - exact I.
Qed.

Lemma tensor_row_length_in_bounds i :
  0 <= i -> (i + 1) * F <= Z.of_nat (length data) ->
  Z.of_nat (length (tensor_row F data i)) = F.
Proof.
  intros Hi Hlen. unfold tensor_row.
  rewrite length_take, length_drop. nia.
Qed.

Lemma decode_rows_in_bounds N :
  0 <= N -> N * F <= INT_MAX -> N * F <= Z.of_nat (length data) ->
  for_int 0 N (fun i dets =>
    do detection <- decode_row data F i;
    do keep <- above_threshold detection;
    Ret (if keep : bool then dets ++ [detection] else dets)) []
  = Ret (List.filter (retained F) (tensor_rows N F data)).
Proof.
  intros HN Hmax Hlen.
  destruct (for_int_ok
              (fun i dets =>
                 do detection <- decode_row data F i;
                 do keep <- above_threshold detection;
                 Ret (if keep : bool then dets ++ [detection] else dets))
              (fun i dets =>
                 dets = List.filter (retained F) (tensor_rows i F data))
              0 N []) as (dets & Hrun & Hdets).
  - assumption.
  - intros i dets Hi ->.
    rewrite decode_row_in_bounds by nia. cbn [obind].
    rewrite (above_threshold_row F (tensor_row F data i))
      by (apply tensor_row_length_in_bounds; nia).
    cbn [obind]. eexists. split; [reflexivity|].
    unfold tensor_rows.
    replace (i + 1) with (Z.of_nat (Datatypes.S (Z.to_nat i))) by lia.
    rewrite seqZ_S, map_app, List.filter_app.
    replace (Z.of_nat (Z.to_nat i)) with i by lia.
    cbn [map List.filter]. rewrite Z.add_0_l.
    destruct (retained F (tensor_row F data i)).
    + reflexivity.
    + rewrite app_nil_r. reflexivity.
  - reflexivity.
  - rewrite Hrun, Hdets. reflexivity.
Qed.

Lemma above_threshold_returns detection :
  exists keep, above_threshold detection = Ret keep.
Proof.
  unfold above_threshold.
  destruct (Z.ltb_spec 8 (Z.of_nat (length detection))) as [Hgt|Hle];
    [|eauto].
  unfold vector_get. cbn [Z.ltb Z.compare]. change (Z.to_nat 8) with 8%nat.
  destruct (lookup_lt_is_Some_2 detection 8) as [c Hc]; [lia|].
  rewrite Hc. cbn [obind]. eauto.
Qed.

(** When the shape announces more values than the data holds, the
    decoder reads past the end of the data. *)
Lemma decode_rows_past N :
  0 <= N -> N * F <= INT_MAX -> Z.of_nat (length data) < N * F ->
  for_int 0 N (fun i dets =>
    do detection <- decode_row data F i;
    do keep <- above_threshold detection;
    Ret (if keep : bool then dets ++ [detection] else dets)) []
  = Undef out_of_bounds.
Proof.
  intros HN Hmax Hlen.
  assert (HFpos : 0 < F) by nia.
  set (L := Z.of_nat (length data)) in *.
  assert (HL : 0 <= L) by (subst L; lia).
  pose proof (Z.div_mod L F ltac:(lia)) as Hdm.
  pose proof (Z.mod_pos_bound L F HFpos) as Hmod.
  assert (Hq : 0 <= L / F < N) by (split; [apply Z.div_pos; lia | nia]).
  apply (for_int_undef _ (fun _ _ => True) 0 N (L / F)).
  - assumption.
  - intros i dets Hi _.
    rewrite decode_row_in_bounds by (try fold L; nia). cbn [obind].
    destruct (above_threshold_returns (tensor_row F data i)) as [keep ->].
    cbn [obind]. eauto.
  - intros dets _.
    rewrite decode_row_past by (try fold L; nia). reflexivity.
  - exact I.
Qed.
End DecoderBounds.

Lemma decode_rank3 (data : list f32) (batch N F : Z) (more : list Z) :
  decode data (batch :: N :: F :: more)
  = for_int 0 (to_int N) (fun i dets =>
      do detection <- decode_row data (to_int F) i;
      do keep <- above_threshold detection;
      Ret (if keep : bool then dets ++ [detection] else dets)) [].
Proof.
  unfold decode.
  destruct (Z.leb_spec 3 (Z.of_nat (length (batch :: N :: F :: more))))
    as [_|Hlt]; [|cbn [length] in Hlt; lia].
  reflexivity.
Qed.

Lemma tensor_rows_app (N F : Z) (data extra : list f32) :
  0 <= F -> N * F <= Z.of_nat (length data) ->
  tensor_rows N F (data ++ extra) = tensor_rows N F data.
Proof.
  intros HF Hlen. unfold tensor_rows. apply map_ext_in.
  intros i Hin. apply list_elem_of_In, elem_of_seqZ in Hin.
  unfold tensor_row.
  rewrite drop_app_le by nia.
  rewrite take_app_le by (rewrite length_drop; nia).
  reflexivity.
Qed.

(** X4. Of the output shape the decoder uses the second and third
    dimension only, and of the data the first [N * F] values: the batch
    dimension, further dimensions and values after the rows do not
    change the detections. *)
Theorem decoder_reads_leading_rows
    (batch N F : Z) (more : list Z) (data extra : list f32) :
  valid_shape N F ->
  Z.of_nat (length data) = N * F ->
  decode (data ++ extra) (batch :: N :: F :: more)
  = Ret (List.filter (retained F) (tensor_rows N F data)).
Proof.
  intros ((HN0 & HNmax) & (HF0 & HFmax) & Hsize) Hlen.
  rewrite decode_rank3.
  rewrite !to_int_id by (unfold INT_MIN, INT_MAX in *; lia).
  rewrite decode_rows_in_bounds;
    try assumption; [|rewrite length_app; lia].
  rewrite tensor_rows_app by lia. reflexivity.
Qed.

Lemma decoder_reads_leading_rows_witness :
  decode ((row_090 ++ row_040) ++ row_05001 ++ [f32_one]) [4; 2; 9; 5]
  = Ret (List.filter (retained 9) (tensor_rows 2 9 (row_090 ++ row_040))).
Proof.
  apply decoder_reads_leading_rows.
  - unfold valid_shape, INT_MAX. lia.
  - reflexivity.
Defined.

(** X5. The decoder trusts the shape: when the shape announces more
    values than the data holds, it reads past the end of the data
    (undefined behaviour) and throws nothing. *)
Theorem decoder_short_data
    (batch N F : Z) (more : list Z) (data : list f32) :
  valid_shape N F ->
  Z.of_nat (length data) < N * F ->
  decode data (batch :: N :: F :: more) = Undef out_of_bounds.
Proof.
  intros ((HN0 & HNmax) & (HF0 & HFmax) & Hsize) Hlen.
  rewrite decode_rank3.
  rewrite !to_int_id by (unfold INT_MIN, INT_MAX in *; lia).
  apply decode_rows_past; assumption.
Qed.

Lemma decoder_short_data_witness :
  decode (row_090 ++ geometry) [1; 2; 9] = Undef out_of_bounds.
Proof.
  apply decoder_short_data.
  - unfold valid_shape, INT_MAX. lia.
  - simpl. lia.
Defined.

Lemma above_threshold_true detection :
  above_threshold detection = Ret true -> good_detection detection.
Proof.
  unfold above_threshold, good_detection.
  destruct (Z.ltb_spec 8 (Z.of_nat (length detection))) as [Hgt|Hle];
    [|discriminate].
  unfold vector_get. cbn [Z.ltb Z.compare]. change (Z.to_nat 8) with 8%nat.
  destruct (detection !! 8%nat) as [c|]; cbn [obind]; [|discriminate].
  intros Hkeep. split; [lia|]. exists c. split; [reflexivity|congruence].
Qed.

(** Whatever the data and the shape, the detections the decoder returns
    all passed the threshold test. *)
Lemma decode_good (data : list f32) (outputShape : list Z)
    (dets : list (list f32)) :
  decode data outputShape = Ret dets -> Forall good_detection dets.
Proof.
  unfold decode.
  destruct (3 <=? Z.of_nat (length outputShape));
    [|intros [= <-]; constructor].
  destruct (vector_get outputShape 1) as [n| |]; cbn [obind];
    try discriminate.
  destruct (vector_get outputShape 2) as [f| |]; cbn [obind];
    try discriminate.
  destruct (Z.le_gt_cases 0 (to_int n)) as [Hle|Hgt].
  - apply (for_int_post _ (fun _ ds => Forall good_detection ds));
      [assumption| |constructor].
    intros i ds ds' _ Hds.
    destruct (decode_row data (to_int f) i) as [detection| |];
      cbn [obind]; try discriminate.
    destruct (above_threshold detection) as [keep| |] eqn:Hkeep;
      cbn [obind]; try discriminate.
    intros [= <-]. destruct keep; [|assumption].
    apply Forall_app. split; [assumption|].
    constructor; [|constructor]. apply above_threshold_true. assumption.
  - rewrite for_int_empty by lia. intros [= <-]. constructor.
Qed.

(** X6. Every detection in an array that [nativeDetectText] returns has
    more than eight values and, at position 8, a confidence greater than
    0.5; rows below the threshold, rows with a NaN confidence and rows of
    eight values or fewer never reach the caller. *)
Theorem detect_returns_good_detections
    (handle : Z) (bitmap : Bitmap) (w : World) (dets : list (list f32)) :
  fst (nativeDetectText handle bitmap w) = Ret (Some dets) ->
  Forall good_detection dets.
Proof.
  unfold nativeDetectText.
  destruct (handle =? 0); [cbn; discriminate|].
  intros Hrun. apply try_catch_ret_inv in Hrun.
  destruct Hrun as [Hbody | (e & w' & _ & Hnull)];
    [|cbn in Hnull; discriminate].
  unfold detect_body in Hbody.
  do 6 (apply bind_ret_inv in Hbody;
        destruct Hbody as (? & ? & _ & Hbody)).
  apply bind_ret_inv in Hbody.
  destruct Hbody as (out0 & wout & _ & Hbody).
  apply bind_ret_inv in Hbody.
  destruct Hbody as (dets' & w' & Hdec & Hret).
  unfold lift in Hdec. cbn in Hret.
  assert (dets' = dets) by congruence. subst dets'.
  apply (decode_good (t_data out0) (t_dims out0)). congruence.
Qed.

Lemma detect_returns_good_detections_witness :
  Forall good_detection [row_090; row_05001].
Proof.
  apply (detect_returns_good_detections 1 sample_bitmap ready_world).
  vm_compute. reflexivity.
Defined.

(** ** [nativeInit] and [nativeDispose] on the heap *)

(** The world a successful [nativeInit] leaves behind. *)
Lemma nativeInit_success_world (w : World) (detPath clsPath recPath : string)
    (sd sc sr : Session) :
  model_files w detPath = Some sd ->
  model_files w clsPath = Some sc ->
  model_files w recPath = Some sr ->
  exists w',
    nativeInit detPath clsPath recPath w = (Ret (Z.pos (next_addr w)), w') /\
    handles w'
    = <[Z.pos (next_addr w) :=
          {| detSession := Z.pos (Pos.succ (next_addr w));
             clsSession := Z.pos (Pos.succ (Pos.succ (next_addr w)));
             recSession :=
               Z.pos (Pos.succ (Pos.succ (Pos.succ (next_addr w)))) |}]>
        (handles w) /\
    sessions w'
    = <[Z.pos (Pos.succ (Pos.succ (Pos.succ (next_addr w)))) := sr]>
        (<[Z.pos (Pos.succ (Pos.succ (next_addr w))) := sc]>
           (<[Z.pos (Pos.succ (next_addr w)) := sd]> (sessions w))) /\
    next_addr w'
    = Pos.succ (Pos.succ (Pos.succ (Pos.succ (next_addr w)))) /\
    model_files w' = model_files w /\
    trace w'
    = trace w ++
      [EvNewSession detPath (Z.pos (Pos.succ (next_addr w)));
       EvNewSession clsPath (Z.pos (Pos.succ (Pos.succ (next_addr w))));
       EvNewSession recPath
         (Z.pos (Pos.succ (Pos.succ (Pos.succ (next_addr w)))))].
Proof.
  intros Hdet Hcls Hrec.
  unfold nativeInit, try_catch, bind, new_OCRHandle, new_Session,
    load_handle, store_handle, ret.
  heap_simpl. rewrite Hdet. heap_simpl. rewrite Hcls. heap_simpl.
  rewrite Hrec. heap_simpl.
  eexists. split; [reflexivity|]. cbn [handles sessions next_addr
                                       model_files trace].
  rewrite !insert_insert_eq, <- !app_assoc. repeat split; reflexivity.
Qed.

Lemma delete_session_eq (w : World) (s : Z) :
  s <> 0 -> is_Some (sessions w !! s) ->
  delete_session s w
  = (Ret tt,
     {| model_files := model_files w; handles := handles w;
        sessions := delete s (sessions w); next_addr := next_addr w;
        trace := trace w ++ [EvDelete s] |}).
Proof.
  intros Hnz [o Ho]. unfold delete_session.
  rewrite (proj2 (Z.eqb_neq s 0) Hnz), Ho. reflexivity.
Qed.

(** The world [nativeDispose] leaves behind. *)
Lemma nativeDispose_world (w : World) (handle : Z) (h : OCRHandle) :
  owns_sessions w handle h ->
  nativeDispose handle w
  = (Ret tt,
     {| model_files := model_files w;
        handles := delete handle (handles w);
        sessions := delete (recSession h)
                      (delete (clsSession h)
                         (delete (detSession h) (sessions w)));
        next_addr := next_addr w;
        trace := trace w ++
                 [EvDelete (detSession h); EvDelete (clsSession h);
                  EvDelete (recSession h); EvDelete handle] |}).
Proof.
  intros (Hnz & Hh & Hd0 & Hc0 & Hr0 & Hdc & Hdr & Hcr & Hd & Hc & Hr).
  unfold nativeDispose. rewrite (proj2 (Z.eqb_neq handle 0) Hnz).
  rewrite (bind_eq _ _ w h w) by (apply load_handle_eq; assumption).
  erewrite bind_eq by (apply delete_session_eq; assumption).
  erewrite bind_eq
    by (apply delete_session_eq; [assumption|];
        cbn [sessions]; rewrite lookup_delete_ne by congruence; assumption).
  erewrite bind_eq
    by (apply delete_session_eq; [assumption|];
        cbn [sessions]; rewrite !lookup_delete_ne by congruence; assumption).
  unfold delete_handle. cbn [handles sessions trace model_files next_addr].
  rewrite Hh. rewrite <- !app_assoc. reflexivity.
Qed.

(** X7. [nativeInit] always returns, and it returns the null handle
    exactly when one of the three models fails to load. *)
Theorem nativeInit_null_iff (w : World) (detPath clsPath recPath : string) :
  (exists handle, fst (nativeInit detPath clsPath recPath w) = Ret handle) /\
  (fst (nativeInit detPath clsPath recPath w) = Ret 0 <->
   model_files w detPath = None \/ model_files w clsPath = None \/
   model_files w recPath = None).
Proof.
  destruct (model_files w detPath) as [sd|] eqn:Hdet;
    [destruct (model_files w clsPath) as [sc|] eqn:Hcls;
     [destruct (model_files w recPath) as [sr|] eqn:Hrec|]|].
  - destruct (nativeInit_success_world w detPath clsPath recPath sd sc sr
                Hdet Hcls Hrec) as (w' & Hrun & _).
    rewrite Hrun. cbn [fst]. split; [eauto|]. split.
    + intros [= Hzero].
    + intros [H|[H|H]]; discriminate H.
  - rewrite (nativeInit_null_on_failure w detPath clsPath recPath) by auto.
    split; [eauto|]. split; auto.
  - rewrite (nativeInit_null_on_failure w detPath clsPath recPath) by auto.
    split; [eauto|]. split; auto.
  - rewrite (nativeInit_null_on_failure w detPath clsPath recPath) by auto.
    split; [eauto|]. split; auto.
Qed.

Lemma nativeInit_null_iff_witness :
  fst (nativeInit "det.onnx" "cls.onnx" "rec.onnx"
         (fresh_world files_without_cls)) = Ret 0.
Proof.
  apply (proj2 (nativeInit_null_iff (fresh_world files_without_cls)
                  "det.onnx" "cls.onnx" "rec.onnx")).
  right. left. reflexivity.
Defined.

(** What the handle of a successful [nativeInit] owns. *)
Lemma success_world_owns (w w' : World) (sd sc sr : Session) :
  handles w'
  = <[Z.pos (next_addr w) :=
        {| detSession := Z.pos (Pos.succ (next_addr w));
           clsSession := Z.pos (Pos.succ (Pos.succ (next_addr w)));
           recSession :=
             Z.pos (Pos.succ (Pos.succ (Pos.succ (next_addr w)))) |}]>
      (handles w) ->
  sessions w'
  = <[Z.pos (Pos.succ (Pos.succ (Pos.succ (next_addr w)))) := sr]>
      (<[Z.pos (Pos.succ (Pos.succ (next_addr w))) := sc]>
         (<[Z.pos (Pos.succ (next_addr w)) := sd]> (sessions w))) ->
  sessions w' !! Z.pos (Pos.succ (next_addr w)) = Some sd /\
  sessions w' !! Z.pos (Pos.succ (Pos.succ (next_addr w))) = Some sc /\
  sessions w' !! Z.pos (Pos.succ (Pos.succ (Pos.succ (next_addr w))))
  = Some sr /\
  owns_sessions w' (Z.pos (next_addr w))
    {| detSession := Z.pos (Pos.succ (next_addr w));
       clsSession := Z.pos (Pos.succ (Pos.succ (next_addr w)));
       recSession :=
         Z.pos (Pos.succ (Pos.succ (Pos.succ (next_addr w)))) |}.
Proof.
  intros Hh Hs. set (a := next_addr w) in *.
  assert (Hsd : sessions w' !! Z.pos (Pos.succ a) = Some sd).
  { rewrite Hs. rewrite !lookup_insert_ne by lia. apply lookup_insert_eq. }
  assert (Hsc : sessions w' !! Z.pos (Pos.succ (Pos.succ a)) = Some sc).
  { rewrite Hs. rewrite lookup_insert_ne by lia. apply lookup_insert_eq. }
  assert (Hsr : sessions w' !! Z.pos (Pos.succ (Pos.succ (Pos.succ a)))
                = Some sr).
  { rewrite Hs. apply lookup_insert_eq. }
  split; [exact Hsd|]. split; [exact Hsc|]. split; [exact Hsr|].
  unfold owns_sessions. cbn [detSession clsSession recSession].
  rewrite Hh, lookup_insert_eq, Hsd, Hsc, Hsr.
  repeat split; try lia; eauto.
Qed.

(** X8. On a well-formed heap, when the three models load, [nativeInit]
    returns a non-null handle that owns three distinct live sessions, one
    per model in the order detection, classification, recognition; the
    handles and sessions that existed before are untouched. *)
Theorem nativeInit_success_owns (w : World)
    (detPath clsPath recPath : string) (sd sc sr : Session) :
  wf_world w ->
  model_files w detPath = Some sd ->
  model_files w clsPath = Some sc ->
  model_files w recPath = Some sr ->
  exists handle h w',
    nativeInit detPath clsPath recPath w = (Ret handle, w') /\
    owns_sessions w' handle h /\
    sessions w' !! detSession h = Some sd /\
    sessions w' !! clsSession h = Some sc /\
    sessions w' !! recSession h = Some sr /\
    wf_world w' /\
    (forall k o, handles w !! k = Some o -> handles w' !! k = Some o) /\
    (forall k o, sessions w !! k = Some o -> sessions w' !! k = Some o).
Proof.
  intros Hwf Hdet Hcls Hrec.
  destruct (nativeInit_success_world w detPath clsPath recPath sd sc sr
              Hdet Hcls Hrec)
    as (w' & Hrun & Hh & Hs & Hnext & _ & _).
  set (a := next_addr w) in *.
  exists (Z.pos a),
    {| detSession := Z.pos (Pos.succ a);
       clsSession := Z.pos (Pos.succ (Pos.succ a));
       recSession := Z.pos (Pos.succ (Pos.succ (Pos.succ a))) |}, w'.
  assert (Hsd : sessions w' !! Z.pos (Pos.succ a) = Some sd).
  { rewrite Hs. rewrite !lookup_insert_ne by lia. apply lookup_insert_eq. }
  assert (Hsc : sessions w' !! Z.pos (Pos.succ (Pos.succ a)) = Some sc).
  { rewrite Hs. rewrite lookup_insert_ne by lia. apply lookup_insert_eq. }
  assert (Hsr : sessions w' !! Z.pos (Pos.succ (Pos.succ (Pos.succ a)))
                = Some sr).
  { rewrite Hs. apply lookup_insert_eq. }
  cbn [detSession clsSession recSession].
  split; [exact Hrun|]. split; [|split; [exact Hsd|split; [exact Hsc|
    split; [exact Hsr|split; [|split]]]]].
  - unfold owns_sessions. cbn [detSession clsSession recSession].
    rewrite Hh, lookup_insert_eq, Hsd, Hsc, Hsr.
    repeat split; try lia; eauto.
  - intros k Hk. rewrite Hnext in Hk. rewrite Hh, Hs.
    rewrite !lookup_insert_ne by lia. apply Hwf. subst a. lia.
  - intros k o Hk. rewrite Hh.
    destruct (Z.eq_dec (Z.pos a) k) as [<-|Hne].
    + destruct (Hwf (Z.pos a)) as [Hnone _]; [subst a; lia|]. congruence.
    + rewrite lookup_insert_ne by assumption. exact Hk.
  - intros k o Hk. rewrite Hs.
    assert (Hlt : k < Z.pos a).
    { destruct (Z.lt_ge_cases k (Z.pos a)) as [Hlt|Hge]; [assumption|].
      destruct (Hwf k) as [_ Hnone]; [subst a; lia|]. congruence. }
    rewrite !lookup_insert_ne by lia. exact Hk.
Qed.

Lemma wf_fresh_world files : wf_world (fresh_world files).
Proof. intros a _. split; reflexivity. Qed.

Lemma nativeInit_success_owns_witness :
  exists handle h w',
    nativeInit "det.onnx" "cls.onnx" "rec.onnx" (fresh_world files_complete)
    = (Ret handle, w') /\
    owns_sessions w' handle h /\
    sessions w' !! detSession h = Some det_model.
Proof.
  destruct (nativeInit_success_owns (fresh_world files_complete)
              "det.onnx" "cls.onnx" "rec.onnx"
              det_model cls_model rec_model)
    as (handle & h & w' & Hrun & Hown & Hsd & _).
  - apply wf_fresh_world.
  - reflexivity.
  - reflexivity.
  - reflexivity.
  - exists handle, h, w'. auto.
Defined.

(** X9. [nativeInit] loads the models in the order detection,
    classification, recognition and stops at the first that fails: when
    the detection model fails no session is created, and when the
    classification model fails the recognition model is not loaded. *)
Theorem nativeInit_stops_at_first_failure (w : World)
    (detPath clsPath recPath : string) :
  (model_files w detPath = None ->
   sessions (snd (nativeInit detPath clsPath recPath w)) = sessions w /\
   trace (snd (nativeInit detPath clsPath recPath w)) = trace w) /\
  (forall sd,
     model_files w detPath = Some sd ->
     model_files w clsPath = None ->
     sessions (snd (nativeInit detPath clsPath recPath w))
     = <[Z.pos (Pos.succ (next_addr w)) := sd]> (sessions w) /\
     trace (snd (nativeInit detPath clsPath recPath w))
     = trace w ++ [EvNewSession detPath (Z.pos (Pos.succ (next_addr w)))]).
Proof.
  split.
  - intros Hdet.
    unfold nativeInit, try_catch, bind, new_OCRHandle, new_Session,
      load_handle, store_handle, ret.
    heap_simpl. rewrite Hdet. heap_simpl. split; reflexivity.
  - intros sd Hdet Hcls.
    unfold nativeInit, try_catch, bind, new_OCRHandle, new_Session,
      load_handle, store_handle, ret.
    heap_simpl. rewrite Hdet. heap_simpl. rewrite Hcls. heap_simpl.
    split; reflexivity.
Qed.

Lemma nativeInit_stops_at_first_failure_witness :
  trace (snd (nativeInit "det.onnx" "cls.onnx" "rec.onnx"
                (fresh_world files_without_cls)))
  = [EvNewSession "det.onnx" 2] /\
  sessions (snd (nativeInit "missing.onnx" "cls.onnx" "rec.onnx"
                   (fresh_world files_complete))) = ∅.
Proof.
  split.
  - apply (proj2 (nativeInit_stops_at_first_failure
                    (fresh_world files_without_cls)
                    "det.onnx" "cls.onnx" "rec.onnx") det_model);
      reflexivity.
  - apply (proj1 (nativeInit_stops_at_first_failure
                    (fresh_world files_complete)
                    "missing.onnx" "cls.onnx" "rec.onnx")).
    reflexivity.
Defined.

(** X10. [nativeDispose] on a handle that owns its three sessions
    returns, frees the handle and exactly those three sessions, and
    leaves every other handle and session as it was; on the null
    handle it does nothing. *)
Theorem nativeDispose_frees_handle (w : World) (handle : Z) (h : OCRHandle) :
  nativeDispose 0 w = (Ret tt, w) /\
  (owns_sessions w handle h ->
   fst (nativeDispose handle w) = Ret tt /\
   handles (snd (nativeDispose handle w)) !! handle = None /\
   sessions (snd (nativeDispose handle w)) !! detSession h = None /\
   sessions (snd (nativeDispose handle w)) !! clsSession h = None /\
   sessions (snd (nativeDispose handle w)) !! recSession h = None /\
   (forall k, k <> handle ->
      handles (snd (nativeDispose handle w)) !! k = handles w !! k) /\
   (forall k, k <> detSession h -> k <> clsSession h -> k <> recSession h ->
      sessions (snd (nativeDispose handle w)) !! k = sessions w !! k)).
Proof.
  split; [reflexivity|].
  intros Hown. rewrite (nativeDispose_world w handle h Hown).
  destruct Hown as (_ & _ & _ & _ & _ & Hdc & Hdr & Hcr & _).
  cbn [fst snd handles sessions].
  split; [reflexivity|]. split; [apply lookup_delete_eq|].
  split; [|split; [|split; [|split]]].
  - rewrite !lookup_delete_ne by congruence. apply lookup_delete_eq.
  - rewrite lookup_delete_ne by congruence. apply lookup_delete_eq.
  - apply lookup_delete_eq.
  - intros k Hk. apply lookup_delete_ne. congruence.
  - intros k Hd Hc Hr. rewrite !lookup_delete_ne by congruence. reflexivity.
Qed.

Lemma owns_ready_world :
  owns_sessions ready_world 1
    {| detSession := 2; clsSession := 3; recSession := 4 |}.
Proof.
  unfold owns_sessions. cbn [detSession clsSession recSession].
  repeat split; try lia; try (eexists; vm_compute; reflexivity).
Qed.

Lemma nativeDispose_frees_handle_witness :
  fst (nativeDispose 1 ready_world) = Ret tt /\
  handles (snd (nativeDispose 1 ready_world)) !! 1 = None.
Proof.
  destruct (proj2 (nativeDispose_frees_handle ready_world 1
                     {| detSession := 2; clsSession := 3; recSession := 4 |})
              owns_ready_world) as (Hret & Hnone & _).
  split; [exact Hret | exact Hnone].
Defined.

(** X11. A successful [nativeInit] followed by [nativeDispose] of the
    handle it returned gives back the heap it started from: every object
    the pair allocated is freed again. *)
Theorem init_dispose_round_trip (w : World)
    (detPath clsPath recPath : string) (sd sc sr : Session) :
  wf_world w ->
  model_files w detPath = Some sd ->
  model_files w clsPath = Some sc ->
  model_files w recPath = Some sr ->
  exists handle w1 w2,
    nativeInit detPath clsPath recPath w = (Ret handle, w1) /\
    nativeDispose handle w1 = (Ret tt, w2) /\
    handles w2 = handles w /\ sessions w2 = sessions w.
Proof.
  intros Hwf Hdet Hcls Hrec.
  destruct (nativeInit_success_world w detPath clsPath recPath sd sc sr
              Hdet Hcls Hrec)
    as (w1 & Hrun & Hh & Hs & _).
  set (a := next_addr w) in *.
  set (h := {| detSession := Z.pos (Pos.succ a);
               clsSession := Z.pos (Pos.succ (Pos.succ a));
               recSession := Z.pos (Pos.succ (Pos.succ (Pos.succ a))) |})
    in *.
  assert (Hown : owns_sessions w1 (Z.pos a) h)
    by (apply (success_world_owns w w1 sd sc sr Hh Hs)).
  exists (Z.pos a), w1. eexists.
  split; [exact Hrun|]. split; [apply (nativeDispose_world w1 _ h Hown)|].
  cbn [handles sessions]. rewrite Hh, Hs. subst h.
  cbn [detSession clsSession recSession].
  destruct (Hwf (Z.pos a)) as [Hnone _]; [subst a; lia|].
  split.
  - rewrite delete_insert_eq. apply delete_id. exact Hnone.
  - apply map_eq. intros k.
    rewrite !lookup_delete, !lookup_insert.
    repeat case_decide; try reflexivity; subst k; symmetry;
      apply Hwf; subst a; lia.
Qed.

Lemma init_dispose_round_trip_witness :
  exists handle w1 w2,
    nativeInit "det.onnx" "cls.onnx" "rec.onnx" (fresh_world files_complete)
    = (Ret handle, w1) /\
    nativeDispose handle w1 = (Ret tt, w2) /\
    handles w2 = ∅ /\ sessions w2 = ∅.
Proof.
  apply (init_dispose_round_trip (fresh_world files_complete)
           "det.onnx" "cls.onnx" "rec.onnx" det_model cls_model rec_model).
  - apply wf_fresh_world.
  - reflexivity.
  - reflexivity.
  - reflexivity.
Defined.

(** ** Calls on a handle that was disposed of *)

Lemma bind_undef {A B} (m : M A) (k : A -> M B) w u w' :
  m w = (Undef u, w') -> bind m k w = (Undef u, w').
Proof. intros Hm. unfold bind. rewrite Hm. reflexivity. Qed.

Lemma bind_throw {A B} (m : M A) (k : A -> M B) w e w' :
  m w = (Throw e, w') -> bind m k w = (Throw e, w').
Proof. intros Hm. unfold bind. rewrite Hm. reflexivity. Qed.

Lemma load_handle_dangling w handle :
  handles w !! handle = None ->
  load_handle handle w = (Undef invalid_pointer, w).
Proof. intros Hh. unfold load_handle. rewrite Hh. reflexivity. Qed.

(** X12. A handle that was disposed of is not answered with the null
    result: a second [nativeDispose], and [nativeDetectText] and
    [nativeRecognizeText] once the bitmap is encoded, dereference the
    freed handle (undefined behaviour). *)
Theorem use_after_dispose (w : World) (handle : Z) (h : OCRHandle)
    (bitmap : Bitmap) (t : list f32) :
  owns_sessions w handle h ->
  Det.encode (to_int (bm_width bitmap)) (to_int (bm_height bitmap))
    (bm_pixels bitmap) = Ret t ->
  fst (nativeDispose handle (snd (nativeDispose handle w)))
  = Undef invalid_pointer /\
  fst (nativeDetectText handle bitmap (snd (nativeDispose handle w)))
  = Undef invalid_pointer /\
  fst (nativeRecognizeText handle bitmap (snd (nativeDispose handle w)))
  = Undef invalid_pointer.
Proof.
  intros Hown Henc.
  rewrite (nativeDispose_world w handle h Hown). cbn [snd].
  destruct Hown as (Hnz & _).
  set (w' := {| model_files := model_files w;
                handles := delete handle (handles w);
                sessions := _; next_addr := _; trace := _ |}).
  assert (Hgone : forall tr,
            load_handle handle
              {| model_files := model_files w';
                 handles := handles w'; sessions := sessions w';
                 next_addr := next_addr w'; trace := tr |}
            = (Undef invalid_pointer,
               {| model_files := model_files w';
                  handles := handles w'; sessions := sessions w';
                  next_addr := next_addr w'; trace := tr |})).
  { intros tr. apply load_handle_dangling. cbn [handles].
    subst w'. cbn [handles]. apply lookup_delete_eq. }
  split; [|split].
  - unfold nativeDispose. rewrite (proj2 (Z.eqb_neq handle 0) Hnz).
    erewrite bind_undef; [reflexivity|].
    apply load_handle_dangling. subst w'. cbn [handles].
    apply lookup_delete_eq.
  - unfold nativeDetectText. rewrite (proj2 (Z.eqb_neq handle 0) Hnz).
    unfold try_catch, detect_body.
    erewrite bind_eq by reflexivity.
    erewrite bind_eq by reflexivity.
    erewrite bind_eq by (apply lift_eq; exact Henc).
    erewrite bind_eq by reflexivity.
    erewrite bind_undef; [reflexivity|].
    unfold emit. cbn [snd handles sessions model_files next_addr trace].
    apply Hgone.
  - unfold nativeRecognizeText. rewrite (proj2 (Z.eqb_neq handle 0) Hnz).
    unfold try_catch, recognize_body.
    erewrite bind_eq by reflexivity.
    erewrite bind_eq by reflexivity.
    erewrite bind_eq by (apply lift_eq; exact Henc).
    erewrite bind_eq by reflexivity.
    erewrite bind_undef; [reflexivity|].
    unfold emit. cbn [snd handles sessions model_files next_addr trace].
    apply Hgone.
Qed.

Lemma use_after_dispose_witness :
  fst (nativeDispose 1 (snd (nativeDispose 1 ready_world)))
  = Undef invalid_pointer /\
  fst (nativeDetectText 1 sample_bitmap (snd (nativeDispose 1 ready_world)))
  = Undef invalid_pointer /\
  fst (nativeRecognizeText 1 sample_bitmap (snd (nativeDispose 1 ready_world)))
  = Undef invalid_pointer.
Proof.
  apply (use_after_dispose ready_world 1
           {| detSession := 2; clsSession := 3; recSession := 4 |}
           sample_bitmap
           [normalize 255; normalize 0; normalize 128;
            normalize 0; normalize 0; normalize 255]).
  - exact owns_ready_world.
  - vm_compute. reflexivity.
Defined.

(** ** What a call does outside the C++ code *)

(** X13. Whatever its arguments and however it ends, [nativeDetectText]
    adds to the trace one of four sequences: nothing (null handle); the
    bitmap queried and locked; queried, locked and unlocked; or these
    three followed by one run of the handle's detection session on the
    encoded tensor with dimensions [(1, 3, height, width)].
    [nativeRecognizeText] does the same with the recognition session. So
    a call runs at most one session, after it unlocked the bitmap, and
    no call runs the classification session. *)
Theorem call_traces (handle : Z) (bitmap : Bitmap) (w : World) :
  (exists suffix,
     trace (snd (nativeDetectText handle bitmap w)) = trace w ++ suffix /\
     (suffix = [] \/
      suffix = [EvGetInfo; EvLockPixels] \/
      suffix = [EvGetInfo; EvLockPixels; EvUnlockPixels] \/
      exists h t,
        handles w !! handle = Some h /\
        Det.encode (to_int (bm_width bitmap)) (to_int (bm_height bitmap))
          (bm_pixels bitmap) = Ret t /\
        suffix = [EvGetInfo; EvLockPixels; EvUnlockPixels;
                  EvRun (detSession h)
                    {| t_data := t;
                       t_dims := [1; 3; to_int (bm_height bitmap);
                                  to_int (bm_width bitmap)] |}])) /\
  (exists suffix,
     trace (snd (nativeRecognizeText handle bitmap w)) = trace w ++ suffix /\
     (suffix = [] \/
      suffix = [EvGetInfo; EvLockPixels] \/
      suffix = [EvGetInfo; EvLockPixels; EvUnlockPixels] \/
      exists h t,
        handles w !! handle = Some h /\
        Rec.encode (to_int (bm_width bitmap)) (to_int (bm_height bitmap))
          (bm_pixels bitmap) = Ret t /\
        suffix = [EvGetInfo; EvLockPixels; EvUnlockPixels;
                  EvRun (recSession h)
                    {| t_data := t;
                       t_dims := [1; 3; to_int (bm_height bitmap);
                                  to_int (bm_width bitmap)] |}])).
Proof.
  split.
  - unfold nativeDetectText.
    destruct (handle =? 0);
      [exists []; rewrite app_nil_r; cbn; auto|].
    unfold try_catch, detect_body, session_run, bind, emit, lift,
      load_handle, load_session, ret.
    cbn [handles sessions trace model_files next_addr fst snd].
    destruct (Det.encode _ _ _) as [t| |] eqn:Henc;
      cbn [fst snd trace];
      try (eexists; split; [rewrite <- !app_assoc; reflexivity|];
           cbn; tauto).
    destruct (handles w !! handle) as [h|] eqn:Hh;
      cbn [fst snd trace handles sessions];
      try (eexists; split; [rewrite <- !app_assoc; reflexivity|];
           cbn; tauto).
    destruct (sessions w !! detSession h) as [o|];
      cbn [fst snd trace handles sessions];
      try (eexists; split; [rewrite <- !app_assoc; reflexivity|];
           cbn; tauto).
    destruct (GetInputName o) as [name| |];
      cbn [fst snd trace handles sessions];
      try (eexists; split; [rewrite <- !app_assoc; reflexivity|];
           cbn; tauto).
    assert (Hrun : forall r : outcome (option (list (list f32))),
              exists suffix,
                ((((trace w ++ [EvGetInfo]) ++ [EvLockPixels]) ++
                  [EvUnlockPixels]) ++
                 [EvRun (detSession h)
                    {| t_data := t;
                       t_dims := [1; 3; to_int (bm_height bitmap);
                                  to_int (bm_width bitmap)] |}])
                = trace w ++ suffix /\
                (suffix = [] \/
                 suffix = [EvGetInfo; EvLockPixels] \/
                 suffix = [EvGetInfo; EvLockPixels; EvUnlockPixels] \/
                 exists h0 t0,
                   Some h = Some h0 /\ Ret t = Ret t0 /\
                   suffix = [EvGetInfo; EvLockPixels; EvUnlockPixels;
                             EvRun (detSession h0)
                               {| t_data := t0;
                                  t_dims :=
                                    [1; 3; to_int (bm_height bitmap);
                                     to_int (bm_width bitmap)] |}])).
    { intros _. eexists. split; [rewrite <- !app_assoc; reflexivity|].
      right. right. right. exists h, t. auto. }
    destruct (Run o name _) as [output| |]; cbn [fst snd trace];
      try (apply (Hrun (Ret None))).
    destruct (vector_get output 0) as [out0| |]; cbn [fst snd trace];
      try (apply (Hrun (Ret None))).
    destruct (decode (t_data out0) (t_dims out0)) as [dets| |];
      cbn [fst snd trace]; apply (Hrun (Ret None)).
  - unfold nativeRecognizeText.
    destruct (handle =? 0);
      [exists []; rewrite app_nil_r; cbn; auto|].
    unfold try_catch, recognize_body, session_run, bind, emit, lift,
      load_handle, load_session, ret.
    cbn [handles sessions trace model_files next_addr fst snd].
    destruct (Rec.encode _ _ _) as [t| |] eqn:Henc;
      cbn [fst snd trace];
      try (eexists; split; [rewrite <- !app_assoc; reflexivity|];
           cbn; tauto).
    destruct (handles w !! handle) as [h|] eqn:Hh;
      cbn [fst snd trace handles sessions];
      try (eexists; split; [rewrite <- !app_assoc; reflexivity|];
           cbn; tauto).
    destruct (sessions w !! recSession h) as [o|];
      cbn [fst snd trace handles sessions];
      try (eexists; split; [rewrite <- !app_assoc; reflexivity|];
           cbn; tauto).
    destruct (GetInputName o) as [name| |];
      cbn [fst snd trace handles sessions];
      try (eexists; split; [rewrite <- !app_assoc; reflexivity|];
           cbn; tauto).
    destruct (Run o name _) as [output| |]; cbn [fst snd trace];
      (eexists; split; [rewrite <- !app_assoc; reflexivity|];
       right; right; right; exists h, t; auto).
Qed.

(** The tensor allocation throws when the size computed from the
    dimensions is negative. *)
Lemma encode_negative_size (width height : Z) (px : list Z) :
  0 < height -> width < 0 ->
  3 * height <= INT_MAX -> INT_MIN <= 3 * height * width ->
  Det.encode width height px = Throw std_length_error.
Proof.
  intros Hh Hw Hmax Hmin. unfold Det.encode.
  rewrite (int_mul_ok 3 height) by (unfold INT_MIN, INT_MAX in *; lia).
  cbn [obind].
  rewrite (int_mul_ok _ width) by (unfold INT_MIN, INT_MAX in *; nia).
  cbn [obind]. unfold vector_alloc.
  destruct (Z.ltb_spec (3 * height * width) 0); [reflexivity|nia].
Qed.

(** X14. When the encoder throws, [nativeDetectText] and
    [nativeRecognizeText] return the null result having queried and
    locked the bitmap, and they do not unlock it: the [catch] block is
    entered before [AndroidBitmap_unlockPixels] is reached. *)
Theorem encoder_exception_leaves_bitmap_locked
    (handle : Z) (bitmap : Bitmap) (w : World) (e : cpp_exception) :
  handle <> 0 ->
  Det.encode (to_int (bm_width bitmap)) (to_int (bm_height bitmap))
    (bm_pixels bitmap) = Throw e ->
  fst (nativeDetectText handle bitmap w) = Ret None /\
  trace (snd (nativeDetectText handle bitmap w))
  = trace w ++ [EvGetInfo; EvLockPixels] /\
  fst (nativeRecognizeText handle bitmap w) = Ret None /\
  trace (snd (nativeRecognizeText handle bitmap w))
  = trace w ++ [EvGetInfo; EvLockPixels].
Proof.
  intros Hnz Henc.
  unfold nativeDetectText, nativeRecognizeText.
  rewrite (proj2 (Z.eqb_neq handle 0) Hnz).
  unfold try_catch, detect_body, recognize_body.
  rewrite !(bind_eq (emit EvGetInfo) _ w tt (snd (emit EvGetInfo w)))
    by reflexivity.
  rewrite !(bind_eq (emit EvLockPixels) _ _ tt
              (snd (emit EvLockPixels (snd (emit EvGetInfo w)))))
    by reflexivity.
  rewrite (bind_throw (lift (Det.encode _ _ _)) _ _ e
             (snd (emit EvLockPixels (snd (emit EvGetInfo w)))))
    by (unfold lift; rewrite Henc; reflexivity).
  rewrite (bind_throw (lift (Rec.encode _ _ _)) _ _ e
             (snd (emit EvLockPixels (snd (emit EvGetInfo w)))))
    by (unfold lift; change (Rec.encode (to_int (bm_width bitmap))
                               (to_int (bm_height bitmap))
                               (bm_pixels bitmap))
          with (Det.encode (to_int (bm_width bitmap))
                  (to_int (bm_height bitmap)) (bm_pixels bitmap));
        rewrite Henc; reflexivity).
  cbn [fst snd ret emit trace]. rewrite <- !app_assoc.
  repeat split; reflexivity.
Qed.

Lemma encoder_exception_leaves_bitmap_locked_witness :
  fst (nativeDetectText 1 wide_bitmap ready_world) = Ret None /\
  trace (snd (nativeDetectText 1 wide_bitmap ready_world))
  = trace ready_world ++ [EvGetInfo; EvLockPixels].
Proof.
  destruct (encoder_exception_leaves_bitmap_locked 1 wide_bitmap ready_world
              std_length_error) as (Hret & Htrace & _).
  - lia.
  - apply encode_negative_size; vm_compute; congruence.
  - split; [exact Hret | exact Htrace].
Defined.

(** X15. [nativeDetectText] takes the first output of the session
    without asking whether there is one: when the session returns no
    output, the call reads [output[0]] of an empty vector (undefined
    behaviour) instead of returning the null result. *)
Theorem detect_without_output
    (handle : Z) (bitmap : Bitmap) (w : World) (h : OCRHandle) (o : Session)
    (t : list f32) (name : string) :
  handle <> 0 ->
  handles w !! handle = Some h ->
  sessions w !! detSession h = Some o ->
  Det.encode (to_int (bm_width bitmap)) (to_int (bm_height bitmap))
    (bm_pixels bitmap) = Ret t ->
  GetInputName o = Ret name ->
  Run o name {| t_data := t;
                t_dims := [1; 3; to_int (bm_height bitmap);
                           to_int (bm_width bitmap)] |} = Ret [] ->
  fst (nativeDetectText handle bitmap w) = Undef out_of_bounds.
Proof.
  intros Hnz Hh Ho Henc Hname Hrun.
  unfold nativeDetectText.
  rewrite (proj2 (Z.eqb_neq handle 0) Hnz).
  unfold try_catch, detect_body.
  erewrite bind_eq by reflexivity.
  erewrite bind_eq by reflexivity.
  erewrite bind_eq by (apply lift_eq; exact Henc).
  erewrite bind_eq by reflexivity.
  erewrite bind_eq by (apply load_handle_eq; exact Hh).
  erewrite bind_eq
    by (eapply session_run_eq; [exact Ho | exact Hname | exact Hrun]).
  erewrite bind_undef; [reflexivity|]. reflexivity.
Qed.

Lemma detect_without_output_witness :
  fst (nativeDetectText 1 sample_bitmap no_output_world)
  = Undef out_of_bounds.
Proof.
  apply (detect_without_output 1 sample_bitmap no_output_world
           {| detSession := 2; clsSession := 3; recSession := 4 |}
           cls_model
           [normalize 255; normalize 0; normalize 128;
            normalize 0; normalize 0; normalize 255] "x"%string).
  - lia.
  - vm_compute. reflexivity.
  - vm_compute. reflexivity.
  - vm_compute. reflexivity.
  - reflexivity.
  - reflexivity.
Defined.



(** X17. An output whose shape has fewer than three dimensions is not
    reported as a failure: [nativeDetectText] returns an empty array,
    whatever the output holds. *)
Theorem detect_low_rank_output
    (handle : Z) (bitmap : Bitmap) (w : World) (h : OCRHandle) (o : Session)
    (t : list f32) (name : string) (out0 : Tensor) (rest : list Tensor) :
  handle <> 0 ->
  handles w !! handle = Some h ->
  sessions w !! detSession h = Some o ->
  Det.encode (to_int (bm_width bitmap)) (to_int (bm_height bitmap))
    (bm_pixels bitmap) = Ret t ->
  GetInputName o = Ret name ->
  Run o name {| t_data := t;
                t_dims := [1; 3; to_int (bm_height bitmap);
                           to_int (bm_width bitmap)] |}
  = Ret (out0 :: rest) ->
  (length (t_dims out0) < 3)%nat ->
  fst (nativeDetectText handle bitmap w) = Ret (Some []).
Proof.
  intros Hnz Hh Ho Henc Hname Hrun Hrank.
  apply (detect_returns_decoded handle bitmap w h o t name out0 rest);
    try assumption.
  unfold decode.
  destruct (Z.leb_spec 3 (Z.of_nat (length (t_dims out0)))) as [Hge|_];
    [lia | reflexivity].
Qed.

Lemma detect_low_rank_output_witness :
  fst (nativeDetectText 1 sample_bitmap flat_world) = Ret (Some []).
Proof.
  apply (detect_low_rank_output 1 sample_bitmap flat_world
           {| detSession := 2; clsSession := 3; recSession := 4 |}
           flat_model
           [normalize 255; normalize 0; normalize 128;
            normalize 0; normalize 0; normalize 255] "x"%string
           flat_output []).
  - lia.
  - vm_compute. reflexivity.
  - vm_compute. reflexivity.
  - vm_compute. reflexivity.
  - reflexivity.
  - reflexivity.
  - simpl. lia.
Defined.
